(** * Ard: eagle presence density component and component log capture

    A shallow embedding of

    - [ard/eco/eagle_density.py]: the OpenMDAO component
      [EagleDensityFunction] ([setup], [compute], [compute_partials]);
    - [ard/utils/logging.py]: [extract_iter], [name_create_log] and the
      decorator [component_log_capture].

    Python methods that read or assign attributes of [self], or that act on
    the file system and on [sys.stdout]/[sys.stderr], are written in a small
    state-and-exception monad: a raised exception keeps the state reached so
    far, as in Python.  Dictionaries with homogeneous values are [gmap]s;
    dictionaries read at fixed keys with values of different types are
    records. *)

From Stdlib Require Import ZArith Lia Ascii.
From stdpp Require Import base option list strings gmap pretty.

Open Scope string_scope.
Open Scope nat_scope.

(** ** Exceptions and the state-and-exception monad *)

Inductive exn : Type :=
| ValueError (msg : string)
| DfitpackError (msg : string)
| KeyError (key : string)
| AttributeError (name : string)
| TypeError (msg : string)
| FileExistsError
| FileNotFoundError
| NotADirectoryError
| IsADirectoryError
| IndexError (msg : string)
| UserException (msg : string).

Definition M (S A : Type) : Type := S -> (exn + A) * S.

Definition ret {S A : Type} (a : A) : M S A := fun s => (inr a, s).

Definition raise {S A : Type} (e : exn) : M S A := fun s => (inl e, s).

Definition bind {S A B : Type} (m : M S A) (k : A -> M S B) : M S B :=
  fun s =>
    match m s with
    | (inl e, s') => (inl e, s')
    | (inr a, s') => k a s'
    end.

Definition get {S : Type} : M S S := fun s => (inr s, s).

Definition put {S : Type} (s : S) : M S unit := fun _ => (inr tt, s).

Definition modify {S : Type} (f : S -> S) : M S unit := fun s => (inr tt, f s).

(** An operation that may raise but has no effect on the state. *)
Definition lift {S A : Type} (r : exn + A) : M S A := fun s => (r, s).

(** Reading an attribute that may not have been assigned yet. *)
Definition getattr {S A : Type} (name : string) (field : S -> option A) : M S A :=
  fun s =>
    match field s with
    | Some a => (inr a, s)
    | None => (inl (AttributeError name), s)
    end.

Declare Scope py_scope.
Delimit Scope py_scope with py.
Notation "'let*' x := m 'in' k" := (bind m (fun x => k))
  (at level 10, x name, m at level 200, k at level 200, only parsing) : py_scope.
Notation "m1 ;; m2" := (bind m1 (fun _ => m2))
  (at level 100, m2 at level 200, right associativity, only parsing) : py_scope.
Open Scope py_scope.

(** [[f(a) for a in l]]: the elements are evaluated left to right and the
    first exception ends the comprehension. *)
Fixpoint mapM {S A B : Type} (f : A -> M S B) (l : list A) : M S (list B) :=
  match l with
  | [] => ret []
  | a :: l' => let* b := f a in let* bs := mapM f l' in ret (b :: bs)
  end.

(** Python's [zip], which stops at the end of the shorter sequence, is the
    [zip] of stdpp ([zip_with pair]). *)

(** ** [ard/eco/eagle_density.py] *)

Module EagleDensity.

(** Floating-point numbers are kept abstract: [F] stands for [float64],
    with its zero and its comparisons [<] and [<=]. *)
Class Float64 (F : Type) : Type := {
  zero : F;
  ltb : F -> F -> bool;
  leb : F -> F -> bool
}.

(** The numerical core of the spline library (FITPACK) is kept abstract as
    well: [tck] is the fitted representation (knots and coefficients),
    [regrid_smth] the fit on a rectangular grid (no smoothing), [bispev] the
    value of the fitted spline at a point and [parder] its analytic partial
    derivative of order [(nux, nuy)] at a point. *)
Class Fitpack (F : Type) : Type := {
  tck : Type;
  regrid_smth : list F -> list F -> list (list F) -> nat -> nat -> tck;
  bispev : tck -> F -> F -> F;
  parder : tck -> nat -> nat -> F -> F -> F
}.

Section Component.

Context {F : Type} `{Float64 F} `{Fitpack F}.

(** *** The library calls the component makes

    [scipy.interpolate.RectBivariateSpline] and [numpy] are not part of
    the repository.  The Python-level argument checks of the calls the
    component makes are written out below as the library documents them;
    only the numerical core above is a parameter. *)

(** [np.all(np.diff(x) > 0.0)] with [rel := ltb], and
    [np.all(np.diff(x) >= 0.0)] with [rel := leb]: every element is
    related to its successor. *)
Fixpoint all_diff (rel : F -> F -> bool) (x : list F) : bool :=
  match x with
  | a :: tl =>
      match tl with
      | b :: _ => rel a b && all_diff rel tl
      | [] => true
      end
  | [] => true
  end.

(** [np.asarray(z).shape] of a two-dimensional array given by its rows;
    [None] when the rows do not form a two-dimensional array. *)
Definition shape (z : list (list F)) : option (nat * nat) :=
  match z with
  | [] => None
  | r :: _ =>
      if forallb (fun r' => length r' =? length r) z
      then Some (length z, length r)
      else None
  end.

Record RectBivariateSpline : Type := {
  spl_tck : tck;
  degrees : nat * nat
}.

(** [np.asarray(z)] refuses rows of different lengths. *)
Definition ragged (z : list (list F)) : bool :=
  match z with
  | [] => false
  | r :: _ => negb (forallb (fun r' => length r' =? length r) z)
  end.

(** [RectBivariateSpline(x, y, z, kx=kx, ky=ky, s=0)]: the checks in the
    order the constructor makes them.  [z] is made an array first; the
    axes are tested before the shape of [z]; [z.shape[1]] does not exist
    for an empty [z]; the size checks [(mx>kx)] and [(my>ky)] are those of
    the wrapper of the fitting routine. *)
Definition RectBivariateSpline_init (x y : list F) (z : list (list F))
    (kx ky : nat) : exn + RectBivariateSpline :=
  if ragged z then
    inl (ValueError "setting an array element with a sequence. The requested array has an inhomogeneous shape")
  else if negb (all_diff ltb x) then
    inl (ValueError "x must be strictly increasing")
  else if negb (all_diff ltb y) then
    inl (ValueError "y must be strictly increasing")
  else if negb (length x =? length z) then
    inl (ValueError "x dimension of z must have same number of elements as x")
  else
    match z with
    | [] => inl (IndexError "tuple index out of range")
    | r :: _ =>
        if negb (length y =? length r) then
          inl (ValueError "y dimension of z must have same number of elements as y")
        else if negb (kx <? length x) then
          inl (DfitpackError "(mx>kx) failed for hidden mx")
        else if negb (ky <? length y) then
          inl (DfitpackError "(my>ky) failed for hidden my")
        else if negb ((1 <=? kx) && (kx <=? 5) && (1 <=? ky) && (ky <=? 5)) then
          inl (ValueError "The input parameters have been rejected by fitpack.")
        else
          inr {| spl_tck := regrid_smth x y z kx ky; degrees := (kx, ky) |}
    end.

(** [spl(x, y, dx=dx, dy=dy)] with the default [grid=True]: the values on
    the grid spanned by [x] and [y]. *)
Definition call_grid (spl : RectBivariateSpline) (x y : list F)
    (dx dy : nat) : exn + list (list F) :=
  if (length x =? 0) || (length y =? 0) then
    inr (repeat (repeat zero (length y)) (length x))
  else if (2 <=? length x) && negb (all_diff leb x) then
    inl (ValueError "x must be strictly increasing when `grid` is True")
  else if (2 <=? length y) && negb (all_diff leb y) then
    inl (ValueError "y must be strictly increasing when `grid` is True")
  else if (0 <? dx) || (0 <? dy) then
    if (dx <? fst (degrees spl)) && (dy <? snd (degrees spl)) then
      inr (map (fun xi => map (fun yi => parder (spl_tck spl) dx dy xi yi) y) x)
    else inl (ValueError "Error code returned by parder: 10")
  else
    inr (map (fun xi => map (fun yi => bispev (spl_tck spl) xi yi) y) x).

(** [np.broadcast_arrays] on two one-dimensional arrays. *)
Definition broadcast_arrays (x y : list F) : exn + (list F * list F) :=
  if length x =? length y then inr (x, y)
  else
    match x, y with
    | [a], _ => inr (repeat a (length y), y)
    | _, [b] => inr (x, repeat b (length x))
    | _, _ =>
        inl (ValueError "shape mismatch: objects cannot be broadcast to a single shape")
    end.

(** [spl.ev(xi, yi, dx=dx, dy=dy)]: the values at the points
    [(xi[i], yi[i])]. *)
Definition ev (spl : RectBivariateSpline) (xi yi : list F)
    (dx dy : nat) : exn + list F :=
  match broadcast_arrays xi yi with
  | inl e => inl e
  | inr (x, y) =>
      if (length x =? 0) || (length y =? 0) then inr []
      else if (0 <? dx) || (0 <? dy) then
        if (dx <? fst (degrees spl)) && (dy <? snd (degrees spl)) then
          inr (zip_with (parder (spl_tck spl) dx dy) x y)
        else inl (ValueError "Error code returned by pardeu: 10")
      else
        inr (zip_with (bispev (spl_tck spl)) x y)
  end.

(** [np.diag(v)] for a one-dimensional [v]: the square matrix with [v] on
    the diagonal and zero elsewhere. *)
Definition diag (v : list F) : list (list F) :=
  imap (fun i vi => imap (fun j _ => if Nat.eqb i j then vi else zero) v) v.

(** [np.zeros((n,))]. *)
Definition zeros (n : nat) : list F := repeat zero n.

(** *** The component *)

(** [modeling_options], read at fixed keys: a dictionary that holds every
    key [setup] reads, with a natural number of turbines.  (On a dictionary
    that lacks one of the keys [setup] raises [KeyError] at the read; such
    options are outside this development.) *)
Record PresenceDensityMap : Type := {
  pdm_x : list F;
  pdm_y : list F;
  pdm_normalized_presence_density : list (list F)
}.

Record ModelingOptions : Type := {
  windIO_plant : gmap string string;
  layout_N_turbines : nat;
  ssrs_presence_density_map : PresenceDensityMap
}.

(** A variable declared to the framework by [add_input] / [add_output]. *)
Record VarMeta : Type := {
  var_name : string;
  var_val : list F;
  var_units : string;
  var_desc : string
}.

(** The component object: the option [modeling_options] that [initialize]
    declares and the framework sets, and the attributes the methods assign
    ([None]: not assigned yet). *)
Record Self : Type := {
  options_modeling_options : ModelingOptions;
  modeling_options : option ModelingOptions;
  windIO : option (gmap string string);
  N_turbines : option nat;
  pres : option PresenceDensityMap;
  eagle_density_function : option RectBivariateSpline;
  var_inputs : list VarMeta;
  var_outputs : list VarMeta;
  declared_partials : list (string * string * string)
}.

Definition set_modeling_options (v : ModelingOptions) (s : Self) : Self :=
  {| options_modeling_options := options_modeling_options s;
     modeling_options := Some v; windIO := windIO s;
     N_turbines := N_turbines s; pres := pres s;
     eagle_density_function := eagle_density_function s;
     var_inputs := var_inputs s; var_outputs := var_outputs s;
     declared_partials := declared_partials s |}.

Definition set_windIO (v : gmap string string) (s : Self) : Self :=
  {| options_modeling_options := options_modeling_options s;
     modeling_options := modeling_options s; windIO := Some v;
     N_turbines := N_turbines s; pres := pres s;
     eagle_density_function := eagle_density_function s;
     var_inputs := var_inputs s; var_outputs := var_outputs s;
     declared_partials := declared_partials s |}.

Definition set_N_turbines (v : nat) (s : Self) : Self :=
  {| options_modeling_options := options_modeling_options s;
     modeling_options := modeling_options s; windIO := windIO s;
     N_turbines := Some v; pres := pres s;
     eagle_density_function := eagle_density_function s;
     var_inputs := var_inputs s; var_outputs := var_outputs s;
     declared_partials := declared_partials s |}.

Definition set_pres (v : PresenceDensityMap) (s : Self) : Self :=
  {| options_modeling_options := options_modeling_options s;
     modeling_options := modeling_options s; windIO := windIO s;
     N_turbines := N_turbines s; pres := Some v;
     eagle_density_function := eagle_density_function s;
     var_inputs := var_inputs s; var_outputs := var_outputs s;
     declared_partials := declared_partials s |}.

Definition set_eagle_density_function (v : RectBivariateSpline) (s : Self) : Self :=
  {| options_modeling_options := options_modeling_options s;
     modeling_options := modeling_options s; windIO := windIO s;
     N_turbines := N_turbines s; pres := pres s;
     eagle_density_function := Some v;
     var_inputs := var_inputs s; var_outputs := var_outputs s;
     declared_partials := declared_partials s |}.

Definition add_input (name : string) (val : list F) (units desc : string)
    : M Self unit :=
  modify (fun s =>
    {| options_modeling_options := options_modeling_options s;
       modeling_options := modeling_options s; windIO := windIO s;
       N_turbines := N_turbines s; pres := pres s;
       eagle_density_function := eagle_density_function s;
       var_inputs := var_inputs s ++
         [{| var_name := name; var_val := val; var_units := units; var_desc := desc |}];
       var_outputs := var_outputs s;
       declared_partials := declared_partials s |}).

Definition add_output (name : string) (val : list F) (units desc : string)
    : M Self unit :=
  modify (fun s =>
    {| options_modeling_options := options_modeling_options s;
       modeling_options := modeling_options s; windIO := windIO s;
       N_turbines := N_turbines s; pres := pres s;
       eagle_density_function := eagle_density_function s;
       var_inputs := var_inputs s;
       var_outputs := var_outputs s ++
         [{| var_name := name; var_val := val; var_units := units; var_desc := desc |}];
       declared_partials := declared_partials s |}).

Definition declare_partials (of_ wrt method : string) : M Self unit :=
  modify (fun s =>
    {| options_modeling_options := options_modeling_options s;
       modeling_options := modeling_options s; windIO := windIO s;
       N_turbines := N_turbines s; pres := pres s;
       eagle_density_function := eagle_density_function s;
       var_inputs := var_inputs s; var_outputs := var_outputs s;
       declared_partials := declared_partials s ++ [(of_, wrt, method)] |}).

(** [EagleDensityFunction.setup]. *)
Definition setup : M Self unit :=
  (* load modeling options and turbine count *)
  let* s := get in
  let mo := options_modeling_options s in
  modify (set_modeling_options mo) ;;
  modify (set_windIO (windIO_plant mo)) ;;
  modify (set_N_turbines (layout_N_turbines mo)) ;;
  (* grab the eagle presence density settings *)
  let p := ssrs_presence_density_map mo in
  modify (set_pres p) ;;
  let* spl := lift (RectBivariateSpline_init (pdm_x p) (pdm_y p)
                    (pdm_normalized_presence_density p) 3 3) in
  modify (set_eagle_density_function spl) ;;
  (* add the full layout inputs *)
  add_input "x_turbines" (zeros (layout_N_turbines mo)) "m"
    "turbine location in x-direction" ;;
  add_input "y_turbines" (zeros (layout_N_turbines mo)) "m"
    "turbine location in y-direction" ;;
  (* add outputs that are universal *)
  add_output "eagle_normalized_density" (zeros (layout_N_turbines mo)) "unitless"
    "normalized eagle presence density".

(** [EagleDensityFunction.setup_partials]. *)
Definition setup_partials : M Self unit :=
  declare_partials "eagle_normalized_density" "x_turbines" "exact" ;;
  declare_partials "eagle_normalized_density" "y_turbines" "exact".

(** [d[key]] on a dictionary. *)
Definition getitem {S V : Type} (d : gmap string V) (key : string) : M S V :=
  match d !! key with
  | Some v => ret v
  | None => raise (KeyError key)
  end.

(** [EagleDensityFunction.compute]: the dictionary [outputs] after the
    call.  Each entry of the density list is what the spline call returns
    for one scalar pair, an array of shape (1, 1). *)
Definition compute (inputs : gmap string (list F))
    (outputs : gmap string (list (list (list F))))
    : M Self (gmap string (list (list (list F)))) :=
  (* unpack the turbine locations *)
  let* x_turbines := getitem inputs "x_turbines" in
  let* y_turbines := getitem inputs "y_turbines" in
  (* evaluate the density function at each turbine point *)
  let* density :=
    mapM (fun '(xt, yt) =>
            let* f := getattr "eagle_density_function" eagle_density_function in
            lift (call_grid f [xt] [yt] 0 0))
         (zip x_turbines y_turbines) in
  ret (<["eagle_normalized_density" := density]> outputs).

(** [EagleDensityFunction.compute_partials]: the dictionary [partials]
    after the call. *)
Definition compute_partials (inputs : gmap string (list F))
    (partials : gmap (string * string) (list (list F)))
    : M Self (gmap (string * string) (list (list F))) :=
  (* unpack the turbine locations *)
  let* x_turbines := getitem inputs "x_turbines" in
  let* y_turbines := getitem inputs "y_turbines" in
  (* evaluate the gradients for each variable *)
  let* f := getattr "eagle_density_function" eagle_density_function in
  let* dfdx := lift (ev f x_turbines y_turbines 1 0) in
  let* f' := getattr "eagle_density_function" eagle_density_function in
  let* dfdy := lift (ev f' x_turbines y_turbines 0 1) in
  ret (<[("eagle_normalized_density", "y_turbines") := diag dfdy]>
         (<[("eagle_normalized_density", "x_turbines") := diag dfdx]> partials)).

(** *** Vocabulary of the statements below *)

(** The entry [J[i][j]] of a matrix given by its rows. *)
Definition entry (J : list (list F)) (i j : nat) : option F :=
  match J !! i with
  | Some row => row !! j
  | None => None
  end.


(** The inputs vector of the driver for the coordinate arrays [xs], [ys]. *)
Definition query_batch (xs ys : list F) : gmap string (list F) :=
  <["y_turbines" := ys]> (<["x_turbines" := xs]> ∅).

(** The calls the optimisation driver makes on a component once it is set
    up, each with the dictionaries it passes; [run_calls] is the state of the
    component after a sequence of them (an exception ends a call, not the
    component). *)
Inductive call : Type :=
| Compute (inputs : gmap string (list F))
    (outputs : gmap string (list (list (list F))))
| ComputePartials (inputs : gmap string (list F))
    (partials : gmap (string * string) (list (list F))).

Definition do_call (c : call) (s : Self) : Self :=
  match c with
  | Compute inputs outputs => snd (compute inputs outputs s)
  | ComputePartials inputs partials => snd (compute_partials inputs partials s)
  end.

Definition run_calls (cs : list call) (s : Self) : Self :=
  fold_left (fun s' c => do_call c s') cs s.

End Component.

End EagleDensity.

(** ** [ard/utils/logging.py] *)

Module Logging.

(** *** The objects the functions inspect *)

(** A [pathlib.Path]: anchored at the root or relative to the working
    directory, with its parts. *)
Record Path : Type := mkPath {
  is_absolute : bool;
  parts : list string
}.

(** The model a problem refers to; [iter_count] is [None] when the object
    has no such attribute. *)
Record Model : Type := {
  iter_count : option Z
}.

(** The dictionary [_problem_meta], read at two keys ([None]: the key is
    absent).  The value at ["model_ref"] is a weak reference: calling it
    gives the model, or [None] once the model is gone. *)
Record ProblemMeta : Type := {
  model_ref : option (option Model);
  reports_dir : option Path
}.

(** What the functions read of the object they are given:
    [is_Component] is [isinstance(component, openmdao.core.component.Component)]
    and [comm_rank] is [component._comm.rank].  The attribute
    [_problem_meta] is [None] when the object has no such attribute,
    [Some None] when the attribute holds [None], as it does on every
    component until the problem is set up, and [Some (Some pm)] when it
    holds the dictionary [pm]. *)
Record Object : Type := {
  is_Component : bool;
  _problem_meta : option (option ProblemMeta);
  pathname : string;
  comm_rank : nat
}.

(** [hasattr(model, "iter_count")] on the referent of the weak reference. *)
Definition hasattr_iter_count (model : option Model) : bool :=
  match model with
  | Some m => bool_decide (is_Some (iter_count m))
  | None => false
  end.

(** [model.iter_count]. *)
Definition getattr_iter_count (model : option Model) : exn + Z :=
  match model with
  | Some m =>
      match iter_count m with
      | Some n => inr n
      | None => inl (AttributeError "iter_count")
      end
  | None => inl (AttributeError "iter_count")
  end.

(** [component._problem_meta]. *)
Definition getattr_problem_meta (component : Object) : exn + option ProblemMeta :=
  match _problem_meta component with
  | Some v => inr v
  | None => inl (AttributeError "_problem_meta")
  end.

(** ["model_ref" in problem_meta]: [None] is no container. *)
Definition contains_model_ref (problem_meta : option ProblemMeta) : exn + bool :=
  match problem_meta with
  | Some pm => inr (bool_decide (is_Some (model_ref pm)))
  | None => inl (TypeError "argument of type 'NoneType' is not iterable")
  end.

(** [problem_meta["model_ref"]] and [problem_meta["reports_dir"]]. *)
Definition getitem_model_ref (problem_meta : option ProblemMeta)
    : exn + option Model :=
  match problem_meta with
  | Some pm =>
      match model_ref pm with
      | Some r => inr r
      | None => inl (KeyError "model_ref")
      end
  | None => inl (TypeError "'NoneType' object is not subscriptable")
  end.

Definition getitem_reports_dir (problem_meta : option ProblemMeta) : exn + Path :=
  match problem_meta with
  | Some pm =>
      match reports_dir pm with
      | Some d => inr d
      | None => inl (KeyError "reports_dir")
      end
  | None => inl (TypeError "'NoneType' object is not subscriptable")
  end.

(** Sequencing of operations that may raise. *)
Definition and_then {A B : Type} (r : exn + A) (k : A -> exn + B) : exn + B :=
  match r with
  | inl e => inl e
  | inr a => k a
  end.

(** [extract_iter]: every read that can raise is written as such, behind
    the guard the source puts before it. *)
Definition extract_iter (component : Object) : exn + option Z :=
  if negb (bool_decide (is_Some (_problem_meta component))) then inr None
  else
    and_then (getattr_problem_meta component) (fun problem_meta =>
    and_then (contains_model_ref problem_meta) (fun has_model_ref =>
    if negb has_model_ref then inr None
    else
      and_then (getitem_model_ref problem_meta) (fun model =>
      if negb (hasattr_iter_count model) then inr None
      else
        and_then (getattr_iter_count model) (fun iter_count =>
        inr (Some iter_count))))).

(** *** Strings and paths *)

(** [s.split(c)] for a one-character separator. *)
Fixpoint split_on (c : Ascii.ascii) (s : string) : list string :=
  match s with
  | EmptyString => [""]
  | String a s' =>
      if Ascii.eqb a c then "" :: split_on c s'
      else
        match split_on c s' with
        | h :: t => String a h :: t
        | [] => [String a ""]
        end
  end.

Fixpoint zero_fill (n : nat) : string :=
  match n with
  | 0 => ""
  | S n' => "0" +:+ zero_fill n'
  end.

(** The format specification [{z:0<width>d}]: decimal digits, padded with
    zeros after the sign up to [width] characters. *)
Definition format_0d (width : nat) (z : Z) : string :=
  let digits := pretty (Z.abs z) in
  if (z <? 0)%Z then "-" +:+ zero_fill (width - 1 - String.length digits) +:+ digits
  else zero_fill (width - String.length digits) +:+ digits.

(** [Path(base, *segments)] for segments without a separator: empty
    segments are dropped. *)
Definition Path_join (base : Path) (segments : list string) : Path :=
  mkPath (is_absolute base)
    (parts base ++ filter (fun seg => seg <> "") segments).

(** [p.as_posix()]. *)
Fixpoint join_slash (l : list string) : string :=
  match l with
  | [] => ""
  | a :: l' =>
      match l' with
      | [] => a
      | _ :: _ => a +:+ "/" +:+ join_slash l'
      end
  end.

Definition as_posix (p : Path) : string :=
  if is_absolute p then "/" +:+ join_slash (parts p)
  else
    match parts p with
    | [] => "."
    | _ :: _ => join_slash (parts p)
    end.

(** [Path(s)] for a string: the components between separators, without
    the empty ones and the dots. *)
Definition Path_of_string (s : string) : Path :=
  mkPath (match s with
          | String c _ => Ascii.eqb c "/"
          | EmptyString => false
          end)
         (filter (fun seg => seg <> "" /\ seg <> ".") (split_on "/"%char s)).

(** [p.parent]. *)
Definition parent (p : Path) : Path :=
  mkPath (is_absolute p) (removelast (parts p)).

(** *** The operator [%] on a string and a string argument

    [fmt % arg] reads [fmt] from left to right.  A percent sign opens a
    conversion specifier: flags, a width, a precision after a dot, a length
    modifier, and the conversion character.  The conversion [%%] writes a
    percent sign; any other takes the next argument, and here there is
    one.  At the end every argument must have been taken. *)

Inductive fmt_state : Type :=
| Text
| Start
| Flags
| Width
| Precision0
| Precision
| Length.

Record conv_spec : Type := {
  ljust : bool;
  width : option N;
  prec : option N
}.

Definition spec0 : conv_spec := {| ljust := false; width := None; prec := None |}.

Inductive action : Type :=
| Emit
| Goto (st : fmt_state) (sp : conv_spec)
| Star
| Fail (e : exn)
| Convert (sp : conv_spec).

Fixpoint char_in (c : Ascii.ascii) (s : string) : bool :=
  match s with
  | EmptyString => false
  | String a s' => Ascii.eqb a c || char_in c s'
  end.

Definition is_digit (c : Ascii.ascii) : bool := char_in c "0123456789".

Definition digit_value (c : Ascii.ascii) : N := (Ascii.N_of_ascii c - 48)%N.

(** One more digit of a width or a precision, unless the number gets
    larger than [max]. *)
Definition more_digits (max : N) (n : option N) (c : Ascii.ascii) : option N :=
  match n with
  | None => Some (digit_value c)
  | Some n' =>
      if ((max - digit_value c) / 10 <? n')%N then None
      else Some (n' * 10 + digit_value c)%N
  end.

Definition PY_SSIZE_T_MAX : N := 9223372036854775807%N.

Definition INT_MAX : N := 2147483647%N.

Definition parse_length (sp : conv_spec) (c : Ascii.ascii) : action :=
  if char_in c "hlL" then Goto Length sp else Convert sp.

Definition parse_precision (sp : conv_spec) (c : Ascii.ascii) : action :=
  if is_digit c then
    match more_digits INT_MAX (prec sp) c with
    | Some p => Goto Precision {| ljust := ljust sp; width := width sp; prec := Some p |}
    | None => Fail (ValueError "precision too big")
    end
  else parse_length sp c.

Definition parse_width (sp : conv_spec) (c : Ascii.ascii) : action :=
  if is_digit c then
    match more_digits PY_SSIZE_T_MAX (width sp) c with
    | Some n => Goto Width {| ljust := ljust sp; width := Some n; prec := prec sp |}
    | None => Fail (ValueError "width too big")
    end
  else if Ascii.eqb c "." then
    Goto Precision0 {| ljust := ljust sp; width := width sp; prec := Some 0%N |}
  else parse_length sp c.

Definition parse_flags (sp : conv_spec) (c : Ascii.ascii) : action :=
  if Ascii.eqb c "-" then
    Goto Flags {| ljust := true; width := width sp; prec := prec sp |}
  else if char_in c "+ #0" then Goto Flags sp
  else if Ascii.eqb c "*" then Star
  else parse_width sp c.

(** What the character [c] does in the state [st]. *)
Definition parse_char (st : fmt_state) (sp : conv_spec) (c : Ascii.ascii) : action :=
  match st with
  | Text => if Ascii.eqb c "%" then Goto Start spec0 else Emit
  | Start =>
      if Ascii.eqb c "(" then Fail (TypeError "format requires a mapping")
      else parse_flags sp c
  | Flags => parse_flags sp c
  | Width => parse_width sp c
  | Precision0 => if Ascii.eqb c "*" then Star else parse_precision sp c
  | Precision => parse_precision sp c
  | Length => Convert sp
  end.

Fixpoint spaces (n : nat) : string :=
  match n with
  | 0 => ""
  | S n' => " " +:+ spaces n'
  end.

Fixpoint take_string (n : nat) (s : string) : string :=
  match n, s with
  | S n', String c s' => String c (take_string n' s')
  | _, _ => ""
  end.

Definition pad (sp : conv_spec) (s : string) : string :=
  match width sp with
  | Some w =>
      let fill := spaces (N.to_nat w - String.length s) in
      if ljust sp then s +:+ fill else fill +:+ s
  | None => s
  end.

Definition truncate (sp : conv_spec) (s : string) : string :=
  match prec sp with
  | Some p => take_string (N.to_nat p) s
  | None => s
  end.

(** [repr(s)] of a word of letters, as the two arguments of the module
    are. *)
Definition repr (s : string) : string := "'" +:+ s +:+ "'".

(** The conversion [c] under the specifier [sp], with [arg] the argument
    that is left: what is written, and the argument left after it. *)
Definition convert (c : Ascii.ascii) (sp : conv_spec) (arg : option string)
    : exn + (string * option string) :=
  if Ascii.eqb c "%" then inr ("%", arg)
  else
    match arg with
    | None => inl (TypeError "not enough arguments for format string")
    | Some a =>
        if Ascii.eqb c "s" then inr (pad sp (truncate sp a), None)
        else if char_in c "ra" then inr (pad sp (truncate sp (repr a)), None)
        else if Ascii.eqb c "c" then
          if String.length a =? 1 then inr (pad sp a, None)
          else inl (TypeError "%c requires an int or a unicode character")
        else if char_in c "diu" then
          inl (TypeError "a real number is required, not str")
        else if char_in c "oxX" then
          inl (TypeError "an integer is required, not str")
        else if char_in c "eEfFgG" then
          inl (TypeError "must be real number, not str")
        else inl (ValueError "unsupported format character")
    end.

Fixpoint percent_go (st : fmt_state) (sp : conv_spec) (arg : option string)
    (fmt : string) : exn + string :=
  match fmt with
  | EmptyString =>
      match st with
      | Text =>
          match arg with
          | Some _ =>
              inl (TypeError "not all arguments converted during string formatting")
          | None => inr ""
          end
      | _ => inl (ValueError "incomplete format")
      end
  | String c fmt' =>
      match parse_char st sp c with
      | Emit => and_then (percent_go Text sp arg fmt') (fun r => inr (String c r))
      | Goto st' sp' => percent_go st' sp' arg fmt'
      | Star =>
          match arg with
          | Some _ => inl (TypeError "* wants int")
          | None => inl (TypeError "not enough arguments for format string")
          end
      | Fail e => inl e
      | Convert sp' =>
          and_then (convert c sp' arg) (fun '(out, arg') =>
          and_then (percent_go Text sp' arg' fmt') (fun r => inr (out +:+ r)))
      end
  end.

(** [fmt % arg]. *)
Definition percent_format (fmt arg : string) : exn + string :=
  percent_go Text spec0 (Some arg) fmt.

(** *** The file system and the output streams *)

Inductive node : Type :=
| Dir
| File (content : string).

(** What [sys.stdout] or [sys.stderr] is bound to: one of the streams the
    process started with, or a file object opened on a path. *)
Inductive stream : Type :=
| Console (fd : nat)
| FileObject (key : list string).

(** The part of the process the functions act on.  The entries of [fs] are
    keyed by their parts from the root; the root itself is a directory and
    has no entry. *)
Record World : Type := {
  fs : gmap (list string) node;
  cwd : list string;
  sys_stdout : stream;
  sys_stderr : stream;
  open_files : list (list string)
}.

Definition set_fs (m : gmap (list string) node) (w : World) : World :=
  {| fs := m; cwd := cwd w; sys_stdout := sys_stdout w;
     sys_stderr := sys_stderr w; open_files := open_files w |}.

Definition set_sys_stdout (t : stream) (w : World) : World :=
  {| fs := fs w; cwd := cwd w; sys_stdout := t;
     sys_stderr := sys_stderr w; open_files := open_files w |}.

Definition set_sys_stderr (t : stream) (w : World) : World :=
  {| fs := fs w; cwd := cwd w; sys_stdout := sys_stdout w;
     sys_stderr := t; open_files := open_files w |}.

Definition set_open_files (l : list (list string)) (w : World) : World :=
  {| fs := fs w; cwd := cwd w; sys_stdout := sys_stdout w;
     sys_stderr := sys_stderr w; open_files := l |}.

Definition lookup_node (m : gmap (list string) node) (k : list string) : option node :=
  match k with
  | [] => Some Dir
  | _ => m !! k
  end.

(** The key of a path: relative paths are resolved against the working
    directory.  The parts are taken as the names of entries: there are no
    symbolic links, and a part [..] is not followed to the parent. *)
Definition resolve (w : World) (p : Path) : list string :=
  if is_absolute p then parts p else cwd w ++ parts p.

(** [p.absolute()]. *)
Definition absolute (p : Path) : M World Path :=
  fun w => (inr (mkPath true (resolve w p)), w).

(** [os.mkdir(k)]. *)
Definition os_mkdir (k : list string) : M World unit :=
  fun w =>
    match lookup_node (fs w) k with
    | Some _ => (inl FileExistsError, w)
    | None =>
        match lookup_node (fs w) (removelast k) with
        | Some Dir => (inr tt, set_fs (<[k := Dir]> (fs w)) w)
        | Some (File _) => (inl NotADirectoryError, w)
        | None => (inl FileNotFoundError, w)
        end
    end.

Definition is_dir (k : list string) (w : World) : bool :=
  match lookup_node (fs w) k with
  | Some Dir => true
  | _ => false
  end.

(** [Path.mkdir(parents=False, exist_ok=exist_ok)] on the key [k]. *)
Definition mkdir_here (k : list string) (exist_ok : bool) : M World unit :=
  fun w =>
    match os_mkdir k w with
    | (inl FileNotFoundError, w1) => (inl FileNotFoundError, w1)
    | (inl e, w1) =>
        if negb exist_ok || negb (is_dir k w1) then (inl e, w1) else (inr tt, w1)
    | (inr u, w1) => (inr u, w1)
    end.

(** [Path.mkdir(parents=parents, exist_ok=exist_ok)] on the key [k], as
    pathlib writes it: try [os.mkdir]; when the parent is missing and
    [parents] is set, make the parent (with [exist_ok=True]) and try once
    more; on any other [OSError], give up unless [exist_ok] is set and the
    path is a directory.  [n] counts the parts of [k], so [n = 0] is the
    case [self.parent == self]. *)
Fixpoint Path_mkdir_go (n : nat) (k : list string) (parents exist_ok : bool)
    : M World unit :=
  fun w =>
    match os_mkdir k w with
    | (inl FileNotFoundError, w1) =>
        match n with
        | 0 => (inl FileNotFoundError, w1)
        | S n' =>
            if negb parents then (inl FileNotFoundError, w1)
            else
              (Path_mkdir_go n' (removelast k) true true ;;
               mkdir_here k exist_ok) w1
        end
    | (inl e, w1) =>
        if negb exist_ok || negb (is_dir k w1) then (inl e, w1) else (inr tt, w1)
    | (inr u, w1) => (inr u, w1)
    end.

Definition Path_mkdir (p : Path) (parents exist_ok : bool) : M World unit :=
  fun w => Path_mkdir_go (length (resolve w p)) (resolve w p) parents exist_ok w.

(** [shutil.rmtree(p, ignore_errors=True)]: a directory goes with all that
    is below it; on anything else the error is ignored. *)
Definition rmtree_ignore_errors (p : Path) : M World unit :=
  fun w =>
    let k := resolve w p in
    match lookup_node (fs w) k with
    | Some Dir =>
        (inr tt,
         set_fs (filter (fun kv : list string * node => ¬ (k `prefix_of` kv.1)) (fs w)) w)
    | _ => (inr tt, w)
    end.

(** [open(p, "a")]: the file is created empty when it does not exist. *)
Definition open_append (p : Path) : M World stream :=
  fun w =>
    let k := resolve w p in
    match lookup_node (fs w) k with
    | Some Dir => (inl IsADirectoryError, w)
    | Some (File _) => (inr (FileObject k), set_open_files (k :: open_files w) w)
    | None =>
        match lookup_node (fs w) (removelast k) with
        | Some Dir =>
            (inr (FileObject k),
             set_open_files (k :: open_files w) (set_fs (<[k := File ""]> (fs w)) w))
        | Some (File _) => (inl NotADirectoryError, w)
        | None => (inl FileNotFoundError, w)
        end
    end.

Fixpoint remove_first (k : list string) (l : list (list string)) : list (list string) :=
  match l with
  | [] => []
  | k' :: l' => if decide (k = k') then l' else k' :: remove_first k l'
  end.

(** Leaving [with open(...) as f]: the file is closed. *)
Definition close (f : stream) : M World unit :=
  fun w =>
    match f with
    | FileObject k => (inr tt, set_open_files (remove_first k (open_files w)) w)
    | Console _ => (inr tt, w)
    end.

(** [contextlib.redirect_stdout(f)]: entering binds [sys.stdout] to [f] and
    keeps the stream it was bound to; leaving binds it back.  Likewise
    [redirect_stderr]. *)
Definition redirect_stdout_enter (f : stream) : M World stream :=
  fun w => (inr (sys_stdout w), set_sys_stdout f w).

Definition redirect_stdout_exit (old : stream) : M World unit :=
  fun w => (inr tt, set_sys_stdout old w).

Definition redirect_stderr_enter (f : stream) : M World stream :=
  fun w => (inr (sys_stderr w), set_sys_stderr f w).

Definition redirect_stderr_exit (old : stream) : M World unit :=
  fun w => (inr tt, set_sys_stderr old w).

(** [with enter as a: body]: the exit runs when the body returns and when
    it raises; an exception of the body goes on after the exit. *)
Definition with_ {S A B : Type} (enter : M S A) (exit : A -> M S unit)
    (body : A -> M S B) : M S B :=
  fun s =>
    match enter s with
    | (inl e, s1) => (inl e, s1)
    | (inr a, s1) =>
        match body a s1 with
        | (r, s2) =>
            match exit a s2 with
            | (inl e', s3) => (inl e', s3)
            | (inr _, s3) => (r, s3)
            end
        end
    end.

(** [try: m except ...: handler]: [handler e] is [None] when no clause
    catches [e]. *)
Definition try_except {S A : Type} (m : M S A) (handler : exn -> option (M S A))
    : M S A :=
  fun s =>
    match m s with
    | (inl e, s1) =>
        match handler e with
        | Some h => h s1
        | None => (inl e, s1)
        end
    | (inr a, s1) => (inr a, s1)
    end.

(** *** The functions of the module *)

(** [name_create_log].  The argument [iter] is overwritten before it is
    read, as in the source.  The template is a path whose last part starts
    with [%s]; it is filled as a string, the whole path at once, and the
    string is made a path again. *)
Definition name_create_log (component : Object) (iter : option Z)
    : M World (Path * Path) :=
  (* make sure we are dealing with an OM component *)
  if negb (is_Component component) then
    raise (TypeError "Expected openmdao.core.component.Component")
  else
    let logs_dir := ["logs"] in
    let* iter := lift (extract_iter component) in
    let logs_dir :=
      match iter with
      | Some i => (logs_dir ++ ["iter_" +:+ format_0d 4 i])%list
      | None => logs_dir
      end in
    (* mirror the comp path for a log directory *)
    let subdir_logger := split_on "."%char (pathname component) in
    (* find the reports directory *)
    let* problem_meta := lift (getattr_problem_meta component) in
    let* dir_reports := lift (getitem_reports_dir problem_meta) in
    (* put the logs directory parallel to it *)
    let path_logfile_template :=
      Path_join (parent dir_reports)
        (logs_dir ++ subdir_logger ++
         ["%s_rank" +:+ format_0d 3 (Z.of_nat (comm_rank component)) +:+ ".txt"])%list in
    let* stdout_posix :=
      lift (percent_format (as_posix path_logfile_template) "stdout") in
    let path_logfile_stdout := Path_of_string stdout_posix in
    let* stderr_posix :=
      lift (percent_format (as_posix path_logfile_template) "stderr") in
    let path_logfile_stderr := Path_of_string stderr_posix in
    (* make a clean log location for this component *)
    try_except
      (Path_mkdir (parent path_logfile_stdout) true false)
      (fun e =>
         match e with
         | FileExistsError =>
             Some (rmtree_ignore_errors (parent path_logfile_stdout) ;;
                   Path_mkdir (parent path_logfile_stdout) true true)
         | _ => None
         end) ;;
    (* return stdout and stderr files *)
    let* out := absolute path_logfile_stdout in
    let* err := absolute path_logfile_stderr in
    ret (out, err).

(** [component_log_capture(compute_func)]: the wrapper it returns.
    [compute_func] is any method; [Args] stands for [*args, **kwargs]. *)
Definition component_log_capture {Args R : Type}
    (compute_func : Object -> Args -> M World R) (iter : option Z)
    : Object -> Args -> M World R :=
  fun self args =>
    (* get log file paths *)
    let* paths := name_create_log self None in
    try_except
      (* use context manager to redirect stdout & stderr *)
      (with_ (open_append (fst paths)) close (fun stdout_file =>
       with_ (open_append (snd paths)) close (fun stderr_file =>
       with_ (redirect_stdout_enter stdout_file) redirect_stdout_exit (fun _ =>
       with_ (redirect_stderr_enter stderr_file) redirect_stderr_exit (fun _ =>
         compute_func self args)))))
      (* make sure the exception is raised *)
      (fun e => Some (raise e)).

(** *** Vocabulary of the statements below *)

(** Every entry of the file system lies in a directory: all the proper
    prefixes of its key are directories. *)
Definition fs_wf (m : gmap (list string) node) : Prop :=
  forall q n p, m !! q = Some n -> p `prefix_of` q -> p <> q ->
    lookup_node m p = Some Dir.

(** [k] is a directory with nothing in it. *)
Definition fresh_dir (m : gmap (list string) node) (k : list string) : Prop :=
  lookup_node m k = Some Dir /\
  forall q, k `prefix_of` q -> q <> k -> m !! q = None.

(** The directory of a log file, as a key. *)
Definition log_dir (p : Path) : list string := removelast (parts p).

(** No regular file sits at [k] or above it. *)
Definition no_file_on_path (m : gmap (list string) node) (k : list string) : Prop :=
  forall p c, p `prefix_of` k -> lookup_node m p <> Some (File c).

(** The layout of the logs: next to the reports directory, the directory
    [logs/iter_<NNNN>/<component path>], without the iteration part when
    the component has no iteration count. *)
Definition logs_location (component : Object) (dir_reports : Path) : Path :=
  Path_join (parent dir_reports)
    (["logs"] ++
     match extract_iter component with
     | inr (Some i) => ["iter_" +:+ format_0d 4 i]
     | _ => []
     end ++
     split_on "."%char (pathname component)).

(** The name of the log file of a stream: [<stream>_rank<NNN>.txt]. *)
Definition logfile_name (component : Object) (s : string) : string :=
  s +:+ "_rank" +:+ format_0d 3 (Z.of_nat (comm_rank component)) +:+ ".txt".

(** The two paths the template gives, before the directory is made: the
    template is the location of the logs with the file name of the stream
    [%s], filled once for each stream. *)
Definition logfile_paths (component : Object) (dir_reports : Path)
    : exn + (Path * Path) :=
  let template :=
    as_posix (Path_join (logs_location component dir_reports)
                [logfile_name component "%s"]) in
  and_then (percent_format template "stdout") (fun out =>
  and_then (percent_format template "stderr") (fun err =>
  inr (Path_of_string out, Path_of_string err))).

(** A name that is one component of a path and is left alone by the
    operator [%]: not empty, without a separator or a percent sign, and
    neither of the two dot names. *)
Definition plain_name (s : string) : Prop :=
  s <> "" /\ s <> "." /\ s <> ".." /\
  char_in "/" s = false /\ char_in "%" s = false.

(** Every part of the location of the logs is such a name. *)
Definition plain_location (component : Object) (dir_reports : Path) : Prop :=
  Forall plain_name (parts (logs_location component dir_reports)).

(** The state the wrapped method starts in, from the state [w1] that
    [name_create_log] leaves: both log files exist and are open, and the
    two streams are bound to them. *)
Definition redirected (out err : Path) (w1 : World) : World :=
  {| fs := <[parts err := File ""]> (<[parts out := File ""]> (fs w1));
     cwd := cwd w1;
     sys_stdout := FileObject (parts out);
     sys_stderr := FileObject (parts err);
     open_files := parts err :: parts out :: open_files w1 |}.

(** The state the wrapper ends in, from the state [w3] that the wrapped
    method leaves: the streams are those of the state [w] the wrapper
    started in, and the two log files are closed. *)
Definition restored (w : World) (out err : Path) (w3 : World) : World :=
  {| fs := fs w3;
     cwd := cwd w3;
     sys_stdout := sys_stdout w;
     sys_stderr := sys_stderr w;
     open_files := remove_first (parts out) (remove_first (parts err) (open_files w3)) |}.

(** Between two states, only the file system may differ. *)
Definition same_process (w w' : World) : Prop :=
  cwd w' = cwd w /\ sys_stdout w' = sys_stdout w /\
  sys_stderr w' = sys_stderr w /\ open_files w' = open_files w.

(** [m'] is [m] with directories added at or above [k]. *)
Definition grows (k : list string) (m m' : gmap (list string) node) : Prop :=
  forall q, m' !! q = m !! q \/
            (m !! q = None /\ m' !! q = Some Dir /\ q `prefix_of` k).

(** What making directories towards [k] does to a state. *)
Definition extends (k : list string) (w w' : World) : Prop :=
  same_process w w' /\ grows k (fs w) (fs w') /\
  (fs_wf (fs w) -> fs_wf (fs w')).

(** A check of [fs_wf] that can be run. *)
Definition fs_wf_check (m : gmap (list string) node) : bool :=
  forallb (fun kv : list string * node =>
             forallb (fun i =>
                        match lookup_node m (take i kv.1) with
                        | Some Dir => true
                        | _ => false
                        end)
                     (seq 0 (length kv.1)))
          (map_to_list m).

(** What the block that makes the clean log location does to a state, for
    any outcome: [d] is the key of the location. *)
Definition location_cleaned (d : list string) (w w1 : World) : Prop :=
  same_process w w1 /\
  (forall q, ~ d `prefix_of` q ->
     fs w1 !! q = fs w !! q \/
     (fs w !! q = None /\ fs w1 !! q = Some Dir /\ q `prefix_of` d)) /\
  (forall q, d `prefix_of` q -> q <> d ->
     fs w1 !! q = fs w !! q \/ fs w1 !! q = None) /\
  (fs_wf (fs w) -> fs_wf (fs w1)).

(** The decimal digits of a number: the single digit 0, or a string that
    starts with neither a zero nor a sign. *)
Definition digits_shape (d : string) : Prop :=
  d = "0" \/
  exists c t, d = String c t /\ c <> "0"%char /\ c <> "-"%char.


End Logging.

(** ** Concrete instances

    Integers stand in for floats, and the fitted surface is the plane
    [f(x, y) = x + y], whose partial derivatives are 1 everywhere. *)

Module Examples.

Import EagleDensity Logging.

#[local] Open Scope Z_scope.

#[global] Instance Z_Float64 : Float64 Z :=
  {| zero := 0; ltb := Z.ltb; leb := Z.leb |}.

#[global] Instance plane : Fitpack Z :=
  {| tck := unit;
     regrid_smth := fun _ _ _ _ _ => tt;
     bispev := fun _ x y => x + y;
     parder := fun _ nux nuy _ _ =>
       match nux, nuy with
       | 1%nat, 0%nat => 1
       | 0%nat, 1%nat => 1
       | _, _ => 0
       end |}.

(** The samples of the plane on a grid. *)
Definition ramp (x y : list Z) : list (list Z) :=
  map (fun a => map (fun b => a + b) y) x.

Definition options_of (n : nat) (x y : list Z) (z : list (list Z))
    : ModelingOptions :=
  {| windIO_plant := ∅;
     layout_N_turbines := n;
     ssrs_presence_density_map :=
       {| pdm_x := x; pdm_y := y; pdm_normalized_presence_density := z |} |}.

(** A component as the framework instantiates it, before [setup]. *)
Definition new_component (mo : ModelingOptions) : Self :=
  {| options_modeling_options := mo;
     modeling_options := None; windIO := None; N_turbines := None;
     pres := None; eagle_density_function := None;
     var_inputs := []; var_outputs := []; declared_partials := [] |}.

(** The 4 x 4 grid over [0, 1, 2, 3], and the component set up on it. *)
Definition options4 : ModelingOptions :=
  options_of 2 [0; 1; 2; 3] [0; 1; 2; 3] (ramp [0; 1; 2; 3] [0; 1; 2; 3]).

Definition component4 : Self := snd (setup (new_component options4)).

(** The spline [setup] stores on that grid. *)
Definition spline4 : RectBivariateSpline := {| spl_tck := tt; degrees := (3%nat, 3%nat) |}.

(** A 3 x 3 grid: too short for a cubic fit, long enough for a quadratic
    or a linear one. *)
Definition options3 : ModelingOptions :=
  options_of 2 [0; 1; 2] [0; 1; 2] (ramp [0; 1; 2] [0; 1; 2]).




(** A component inside a problem at iteration 7, with stale logs from an
    earlier use, and a process writing to its console. *)
Definition component_logged : Object :=
  {| is_Component := true;
     _problem_meta := Some (Some
       {| model_ref := Some (Some {| iter_count := Some 7 |});
          reports_dir := Some (mkPath false ["out"; "reports"]) |});
     pathname := "farm.eagle";
     comm_rank := 2 |}.

(** The same component on another rank. *)
Definition component_logged_rank3 : Object :=
  {| is_Component := true;
     _problem_meta := Some (Some
       {| model_ref := Some (Some {| iter_count := Some 7 |});
          reports_dir := Some (mkPath false ["out"; "reports"]) |});
     pathname := "farm.eagle";
     comm_rank := 3 |}.


(** A component whose reports directory lies in a directory with a
    conversion specifier in its name, and one with a doubled percent
    sign. *)
Definition component_percent_s : Object :=
  {| is_Component := true;
     _problem_meta := Some (Some
       {| model_ref := None;
          reports_dir := Some (mkPath true ["data"; "run_%s"; "reports"]) |});
     pathname := "eagle";
     comm_rank := 0 |}.

Definition component_percent_percent : Object :=
  {| is_Component := true;
     _problem_meta := Some (Some
       {| model_ref := None;
          reports_dir := Some (mkPath true ["data"; "50%%"; "reports"]) |});
     pathname := "eagle";
     comm_rank := 0 |}.

Definition stale_log_dir : list string :=
  ["home"; "out"; "logs"; "iter_0007"; "farm"; "eagle"].

Definition world_stale : World :=
  {| fs := list_to_map
       [ (["home"], Dir);
         (["home"; "out"], Dir);
         (["home"; "out"; "reports"], Dir);
         (["home"; "out"; "logs"], Dir);
         (["home"; "out"; "logs"; "iter_0007"], Dir);
         (["home"; "out"; "logs"; "iter_0007"; "farm"], Dir);
         (stale_log_dir, Dir);
         ((stale_log_dir ++ ["stdout_rank002.txt"])%list, File "old output") ];
     cwd := ["home"];
     sys_stdout := Console 1;
     sys_stderr := Console 2;
     open_files := [] |}.

(** A wrapped method that fails, and one that returns. *)
Definition failing_func (self : Object) (args : unit) : M World nat :=
  raise (UserException "solver diverged").

Definition returning_func (self : Object) (args : unit) : M World nat :=
  ret 42%nat.

End Examples.

(** ** Facts about [ard/eco/eagle_density.py] *)

Module EagleDensityFacts.

Import EagleDensity.

Section Facts.

Context {F : Type} `{Float64 F} `{Fitpack F}.

(** *** Lists *)

Lemma fmap_zip_as_zip_with {A B C : Type} (f : A -> B -> C) (xs : list A) (ys : list B) :
  map (fun p => f p.1 p.2) (zip xs ys) = zip_with f xs ys.
Proof.
  revert ys; induction xs as [|x xs IH]; intros [|y ys]; simpl; auto.
  now rewrite IH.
Qed.

(** *** The spline calls *)

Lemma call_grid_scalar (spl : RectBivariateSpline) (xt yt : F) :
  call_grid spl [xt] [yt] 0 0 = inr [[bispev (spl_tck spl) xt yt]].
Proof. reflexivity. Qed.

Lemma broadcast_same_length (xs ys : list F) :
  length xs = length ys -> broadcast_arrays xs ys = inr (xs, ys).
Proof.
  intros E. unfold broadcast_arrays. now rewrite E, Nat.eqb_refl.
Qed.

Lemma ev_same_length (spl : RectBivariateSpline) (xs ys : list F) (dx dy : nat) :
  length xs = length ys ->
  0 < dx + dy -> dx < fst (degrees spl) -> dy < snd (degrees spl) ->
  ev spl xs ys dx dy = inr (zip_with (parder (spl_tck spl) dx dy) xs ys).
Proof.
  intros E Hd Hx Hy. unfold ev. rewrite (broadcast_same_length _ _ E).
  destruct xs as [|x xs], ys as [|y ys]; try discriminate; [reflexivity|].
  cbn [length Nat.eqb orb].
  assert (Hor : (0 <? dx) || (0 <? dy) = true).
  { destruct dx; [destruct dy; [lia|]|]; reflexivity. }
  rewrite Hor.
  apply Nat.ltb_lt in Hx, Hy. now rewrite Hx, Hy.
Qed.

(** *** [np.diag] *)

Lemma diag_length (v : list F) : length (diag v) = length v.
Proof. unfold diag. apply length_imap. Qed.

Lemma diag_row_length (v : list F) i row :
  diag v !! i = Some row -> length row = length v.
Proof.
  unfold diag. rewrite list_lookup_imap.
  destruct (v !! i); simpl; [|discriminate].
  intros [= <-]. apply length_imap.
Qed.

Lemma diag_entry (v : list F) i j vi :
  v !! i = Some vi -> j < length v ->
  entry (diag v) i j = Some (if Nat.eqb i j then vi else zero).
Proof.
  intros Hi Hj. unfold entry, diag. rewrite list_lookup_imap, Hi. simpl.
  rewrite list_lookup_imap.
  destruct (lookup_lt_is_Some_2 v j Hj) as [vj Hvj]. now rewrite Hvj.
Qed.

(** *** [compute] and [compute_partials] step by step *)

Lemma mapM_call (s : Self) (spl : RectBivariateSpline) (l : list (F * F)) :
  eagle_density_function s = Some spl ->
  mapM (fun '(xt, yt) =>
          let* f := getattr "eagle_density_function" eagle_density_function in
          lift (call_grid f [xt] [yt] 0 0)) l s
  = (inr (map (fun p => [[bispev (spl_tck spl) p.1 p.2]]) l), s).
Proof.
  intros Hs. induction l as [|[xt yt] l IH]; [reflexivity|].
  cbn [mapM]. unfold bind at 1. unfold bind at 1.
  unfold getattr at 1. rewrite Hs. unfold lift at 1.
  rewrite call_grid_scalar. unfold bind at 1. rewrite IH. reflexivity.
Qed.

Lemma mapM_call_frame (s : Self) (l : list (F * F)) :
  snd (mapM (fun '(xt, yt) =>
          let* f := getattr "eagle_density_function" eagle_density_function in
          lift (call_grid f [xt] [yt] 0 0)) l s) = s.
Proof.
  destruct (eagle_density_function s) as [spl|] eqn:Hs.
  - now rewrite (mapM_call s spl l Hs).
  - destruct l as [|[xt yt] l]; [reflexivity|].
    cbn [mapM]. unfold bind at 1. unfold bind at 1.
    unfold getattr at 1. now rewrite Hs.
Qed.

Lemma compute_eval (s : Self) (spl : RectBivariateSpline)
    (inputs : gmap string (list F)) (outputs : gmap string (list (list (list F))))
    (xs ys : list F) :
  eagle_density_function s = Some spl ->
  inputs !! "x_turbines" = Some xs ->
  inputs !! "y_turbines" = Some ys ->
  compute inputs outputs s
  = (inr (<["eagle_normalized_density" :=
             zip_with (fun xt yt => [[bispev (spl_tck spl) xt yt]]) xs ys]> outputs), s).
Proof.
  intros Hs Hx Hy. unfold compute, getitem. rewrite Hx, Hy.
  unfold bind at 1. unfold ret at 1. unfold bind at 1. unfold ret at 1.
  unfold bind at 1. rewrite (mapM_call s spl _ Hs).
  rewrite (fmap_zip_as_zip_with (fun xt yt => [[bispev (spl_tck spl) xt yt]])).
  reflexivity.
Qed.

Lemma compute_frame (s : Self) (inputs : gmap string (list F))
    (outputs : gmap string (list (list (list F)))) :
  snd (compute inputs outputs s) = s.
Proof.
  unfold compute, getitem.
  destruct (inputs !! "x_turbines") as [xs|]; [|reflexivity].
  destruct (inputs !! "y_turbines") as [ys|]; [|reflexivity].
  unfold bind at 1. unfold ret at 1. unfold bind at 1. unfold ret at 1.
  unfold bind at 1.
  pose proof (mapM_call_frame s (zip xs ys)) as Hf.
  destruct (mapM _ (zip xs ys) s) as [[e|d] s']; simpl in Hf; subst s'; reflexivity.
Qed.

Lemma compute_partials_frame (s : Self) (inputs : gmap string (list F))
    (partials : gmap (string * string) (list (list F))) :
  snd (compute_partials inputs partials s) = s.
Proof.
  unfold compute_partials, getitem.
  destruct (inputs !! "x_turbines") as [xs|]; [|reflexivity].
  destruct (inputs !! "y_turbines") as [ys|]; [|reflexivity].
  unfold bind, ret, getattr, lift.
  destruct (eagle_density_function s) as [spl|] eqn:Hs; [|reflexivity].
  destruct (ev spl xs ys 1 0); [reflexivity|].
  rewrite Hs.
  destruct (ev spl xs ys 0 1); reflexivity.
Qed.

Lemma compute_partials_eval (s : Self) (spl : RectBivariateSpline)
    (inputs : gmap string (list F))
    (partials : gmap (string * string) (list (list F))) (xs ys : list F) :
  eagle_density_function s = Some spl ->
  1 < fst (degrees spl) -> 1 < snd (degrees spl) ->
  inputs !! "x_turbines" = Some xs ->
  inputs !! "y_turbines" = Some ys ->
  length xs = length ys ->
  compute_partials inputs partials s
  = (inr (<[("eagle_normalized_density", "y_turbines") :=
             diag (zip_with (parder (spl_tck spl) 0 1) xs ys)]>
           (<[("eagle_normalized_density", "x_turbines") :=
               diag (zip_with (parder (spl_tck spl) 1 0) xs ys)]> partials)), s).
Proof.
  intros Hs Hkx Hky Hx Hy E. unfold compute_partials, getitem. rewrite Hx, Hy.
  unfold bind, ret, getattr, lift. rewrite Hs.
  rewrite (ev_same_length spl xs ys 1 0 E) by lia.
  rewrite Hs.
  rewrite (ev_same_length spl xs ys 0 1 E) by lia.
  reflexivity.
Qed.

Lemma run_calls_frame (cs : list call) (s : Self) : run_calls cs s = s.
Proof.
  unfold run_calls. induction cs as [|c cs IH]; [reflexivity|].
  cbn [fold_left].
  assert (Hc : do_call c s = s).
  { destruct c; cbn [do_call]; [apply compute_frame | apply compute_partials_frame]. }
  now rewrite Hc.
Qed.

(** *** The constructor of the spline and [setup] *)

Lemma shape_ragged (z : list (list F)) (n m : nat) :
  shape z = Some (n, m) ->
  ragged z = false /\ n = length z /\ exists r z', z = r :: z' /\ m = length r.
Proof.
  unfold shape, ragged. destruct z as [|r z']; [discriminate|].
  destruct (forallb _ _); [|discriminate]. intros [= <- <-]. eauto 6.
Qed.

Lemma init_inv (x y : list F) (z : list (list F)) (kx ky : nat)
    (spl : RectBivariateSpline) :
  RectBivariateSpline_init x y z kx ky = inr spl ->
  shape z = Some (length x, length y) /\
  all_diff ltb x = true /\ all_diff ltb y = true /\
  kx < length x /\ ky < length y /\ degrees spl = (kx, ky).
Proof.
  unfold RectBivariateSpline_init, shape, ragged.
  destruct z as [|r z'].
  - destruct (all_diff ltb x); [|discriminate].
    destruct (all_diff ltb y); [|discriminate]. cbn [negb].
    destruct (negb (length x =? _)); discriminate.
  - destruct (forallb _ _); cbn [negb]; [|discriminate].
    destruct (all_diff ltb x); [|discriminate].
    destruct (all_diff ltb y); [|discriminate]. cbn [negb].
    destruct (Nat.eqb_spec (length x) (length (r :: z'))) as [->|]; [|discriminate].
    destruct (Nat.eqb_spec (length y) (length r)) as [->|]; [|discriminate]. cbn [negb].
    destruct (Nat.ltb_spec kx (length (r :: z'))); [|discriminate].
    destruct (Nat.ltb_spec ky (length r)); [|discriminate]. cbn [negb].
    destruct (_ && _); [|discriminate]. cbn [negb].
    intros [= <-]. auto 10.
Qed.

Lemma init_checks (x y : list F) (z : list (list F)) (kx ky : nat) :
  shape z = Some (length x, length y) ->
  all_diff ltb x = true -> all_diff ltb y = true ->
  RectBivariateSpline_init x y z kx ky
  = if negb (kx <? length x) then
      inl (DfitpackError "(mx>kx) failed for hidden mx")
    else if negb (ky <? length y) then
      inl (DfitpackError "(my>ky) failed for hidden my")
    else if negb ((1 <=? kx) && (kx <=? 5) && (1 <=? ky) && (ky <=? 5)) then
      inl (ValueError "The input parameters have been rejected by fitpack.")
    else
      inr {| spl_tck := regrid_smth x y z kx ky; degrees := (kx, ky) |}.
Proof.
  intros Hz Hx Hy. destruct (shape_ragged _ _ _ Hz) as (Hr & Lx & r & z' & -> & Ly).
  unfold RectBivariateSpline_init. rewrite Hr, Hx, Hy, Lx, Ly, !Nat.eqb_refl.
  reflexivity.
Qed.

Lemma init_cubic (x y : list F) (z : list (list F)) :
  shape z = Some (length x, length y) ->
  all_diff ltb x = true -> all_diff ltb y = true ->
  4 <= length x -> 4 <= length y ->
  exists spl, RectBivariateSpline_init x y z 3 3 = inr spl /\ degrees spl = (3, 3).
Proof.
  intros Hz Hx Hy Lx Ly. rewrite (init_checks _ _ _ _ _ Hz Hx Hy).
  destruct (Nat.ltb_spec 3 (length x)); [|lia].
  destruct (Nat.ltb_spec 3 (length y)); [|lia]. cbn.
  eexists; split; reflexivity.
Qed.



Lemma init_short_axis (x y : list F) (z : list (list F)) (kx ky : nat) :
  length x <= kx \/ length y <= ky ->
  exists e, RectBivariateSpline_init x y z kx ky = inl e.
Proof.
  intros Hs.
  destruct (RectBivariateSpline_init x y z kx ky) as [e|spl] eqn:E; [eauto|].
  apply init_inv in E. lia.
Qed.

Lemma setup_failure (s0 : Self) (e : exn) :
  (let p := ssrs_presence_density_map (options_modeling_options s0) in
   RectBivariateSpline_init (pdm_x p) (pdm_y p)
     (pdm_normalized_presence_density p) 3 3) = inl e ->
  exists s, setup s0 = (inl e, s) /\
            eagle_density_function s = eagle_density_function s0.
Proof.
  cbv zeta. intros E. unfold setup, bind, get, modify, lift. rewrite E.
  eexists; split; reflexivity.
Qed.

Lemma setup_success (s0 : Self) (spl : RectBivariateSpline) :
  (let p := ssrs_presence_density_map (options_modeling_options s0) in
   RectBivariateSpline_init (pdm_x p) (pdm_y p)
     (pdm_normalized_presence_density p) 3 3) = inr spl ->
  exists s, setup s0 = (inr tt, s) /\ eagle_density_function s = Some spl.
Proof.
  cbv zeta. intros E.
  unfold setup, bind, get, modify, lift, add_input, add_output. rewrite E.
  eexists; split; reflexivity.
Qed.

Lemma setup_inv (s0 s : Self) :
  setup s0 = (inr tt, s) ->
  exists spl,
    (let p := ssrs_presence_density_map (options_modeling_options s0) in
     RectBivariateSpline_init (pdm_x p) (pdm_y p)
       (pdm_normalized_presence_density p) 3 3) = inr spl /\
    eagle_density_function s = Some spl.
Proof.
  cbv zeta.
  destruct (RectBivariateSpline_init _ _ _ 3 3) as [e|spl] eqn:E.
  - destruct (setup_failure s0 e E) as (s' & Hs' & _). congruence.
  - destruct (setup_success s0 spl E) as (s' & Hs' & Hf).
    intros Hs. exists spl. split; [reflexivity|]. congruence.
Qed.

(** *** Sorted axes *)

Section Order.

Hypothesis ltb_irrefl : forall a : F, ltb a a = false.
Hypothesis ltb_trans :
  forall a b c : F, ltb a b = true -> ltb b c = true -> ltb a c = true.







End Order.

(** C1. For coordinate arrays of the same length N, [compute] returns: it
    writes a density list of length N whose i-th entry is what the fitted
    interpolant gives when called on the single point (xs[i], ys[i]), and it
    leaves the component as it was. *)
Theorem compute_density_pointwise (s : Self) (spl : RectBivariateSpline)
    (inputs : gmap string (list F)) (outputs : gmap string (list (list (list F))))
    (xs ys : list F) :
  eagle_density_function s = Some spl ->
  inputs !! "x_turbines" = Some xs ->
  inputs !! "y_turbines" = Some ys ->
  length xs = length ys ->
  exists density,
    compute inputs outputs s
      = (inr (<["eagle_normalized_density" := density]> outputs), s) /\
    length density = length xs /\
    forall i xi yi, xs !! i = Some xi -> ys !! i = Some yi ->
      call_grid spl [xi] [yi] 0 0 = inr [[bispev (spl_tck spl) xi yi]] /\
      density !! i = Some [[bispev (spl_tck spl) xi yi]].
Proof.
  intros Hs Hx Hy E. eexists. split; [apply (compute_eval s spl); eassumption|].
  split.
  - rewrite length_zip_with. lia.
  - intros i xi yi Hi Hj. split; [apply call_grid_scalar|].
    rewrite lookup_zip_with, Hi. simpl. now rewrite Hj.
Qed.

(** C2. For coordinate arrays of the same length N and a component that has
    been set up, [compute_partials] returns two blocks with N rows of N
    entries; off the diagonal every entry is zero, and the i-th diagonal
    entry of the x-block (of the y-block) is the analytic first partial
    derivative of the fitted interpolant in x (in y) at (xs[i], ys[i]). *)
Theorem compute_partials_diagonal (s0 s : Self)
    (inputs : gmap string (list F))
    (partials : gmap (string * string) (list (list F))) (xs ys : list F) :
  setup s0 = (inr tt, s) ->
  inputs !! "x_turbines" = Some xs ->
  inputs !! "y_turbines" = Some ys ->
  length xs = length ys ->
  exists spl Jx Jy,
    eagle_density_function s = Some spl /\
    compute_partials inputs partials s
      = (inr (<[("eagle_normalized_density", "y_turbines") := Jy]>
               (<[("eagle_normalized_density", "x_turbines") := Jx]> partials)), s) /\
    length Jx = length xs /\ length Jy = length xs /\
    (forall i row, Jx !! i = Some row -> length row = length xs) /\
    (forall i row, Jy !! i = Some row -> length row = length xs) /\
    (forall i j xi yi, xs !! i = Some xi -> ys !! i = Some yi -> j < length xs ->
       entry Jx i j
         = Some (if Nat.eqb i j then parder (spl_tck spl) 1 0 xi yi else zero) /\
       entry Jy i j
         = Some (if Nat.eqb i j then parder (spl_tck spl) 0 1 xi yi else zero)).
Proof.
  intros Hsetup Hx Hy E.
  destruct (setup_inv s0 s Hsetup) as (spl & Hinit & Hs). cbv zeta in Hinit.
  apply init_inv in Hinit as (_ & _ & _ & _ & _ & Hdeg).
  exists spl. do 2 eexists. split; [exact Hs|].
  split.
  { apply (compute_partials_eval s spl inputs partials xs ys); auto;
      rewrite Hdeg; simpl; lia. }
  assert (L : forall dx dy,
             length (zip_with (parder (spl_tck spl) dx dy) xs ys) = length xs).
  { intros dx dy. rewrite length_zip_with. lia. }
  split; [now rewrite diag_length, L|]. split; [now rewrite diag_length, L|].
  split; [intros i row Hrow; apply diag_row_length in Hrow; now rewrite Hrow, L|].
  split; [intros i row Hrow; apply diag_row_length in Hrow; now rewrite Hrow, L|].
  intros i j xi yi Hi Hj Hlt.
  split; (apply diag_entry; [|now rewrite L]);
    rewrite lookup_zip_with, Hi; simpl; now rewrite Hj.
Qed.

(** C3, as the code has it. For coordinate arrays of different lengths
    [compute] raises nothing: [zip] pairs the coordinates up to the end of
    the shorter array, and the density list written has
    min(len(xs), len(ys)) entries, the i-th being the interpolant at
    (xs[i], ys[i]). *)
Theorem compute_truncates_on_length_mismatch (s : Self) (spl : RectBivariateSpline)
    (inputs : gmap string (list F)) (outputs : gmap string (list (list (list F))))
    (xs ys : list F) :
  eagle_density_function s = Some spl ->
  inputs !! "x_turbines" = Some xs ->
  inputs !! "y_turbines" = Some ys ->
  length xs <> length ys ->
  exists density,
    compute inputs outputs s
      = (inr (<["eagle_normalized_density" := density]> outputs), s) /\
    length density = Nat.min (length xs) (length ys) /\
    forall i xi yi, xs !! i = Some xi -> ys !! i = Some yi ->
      density !! i = Some [[bispev (spl_tck spl) xi yi]].
Proof.
  intros Hs Hx Hy _. eexists. split; [apply (compute_eval s spl); eassumption|].
  split.
  - apply length_zip_with.
  - intros i xi yi Hi Hj. rewrite lookup_zip_with, Hi. simpl. now rewrite Hj.
Qed.

(** C4, as the code has it. [setup] asks for the cubic fit in each axis
    (degrees 3 and 3, no smoothing) and for nothing else: on a well-formed
    grid with at least four points on each axis it stores a spline of
    degrees (3, 3); a spline it stores always has these degrees; and
    whenever an axis has fewer than four points it fails with the error of
    the spline library and stores no interpolant. *)
Theorem setup_cubic_or_fails (s0 : Self) :
  let p := ssrs_presence_density_map (options_modeling_options s0) in
  (shape (pdm_normalized_presence_density p)
     = Some (length (pdm_x p), length (pdm_y p)) ->
   all_diff ltb (pdm_x p) = true -> all_diff ltb (pdm_y p) = true ->
   4 <= length (pdm_x p) -> 4 <= length (pdm_y p) ->
   exists s spl, setup s0 = (inr tt, s) /\
                 eagle_density_function s = Some spl /\ degrees spl = (3, 3)) /\
  (forall s, setup s0 = (inr tt, s) ->
   exists spl, eagle_density_function s = Some spl /\ degrees spl = (3, 3)) /\
  (length (pdm_x p) < 4 \/ length (pdm_y p) < 4 ->
   exists e s, setup s0 = (inl e, s) /\
               eagle_density_function s = eagle_density_function s0).
Proof.
  cbv zeta. split; [|split].
  - intros Hz Hx Hy Lx Ly.
    destruct (init_cubic _ _ _ Hz Hx Hy Lx Ly) as (spl & Hinit & Hdeg).
    destruct (setup_success s0 spl Hinit) as (s & Hs & Hf).
    exists s, spl. auto.
  - intros s Hs. destruct (setup_inv s0 s Hs) as (spl & Hinit & Hf).
    cbv zeta in Hinit. apply init_inv in Hinit as (_ & _ & _ & _ & _ & Hdeg).
    exists spl. auto.
  - intros Hshort.
    destruct (init_short_axis
                (pdm_x (ssrs_presence_density_map (options_modeling_options s0)))
                (pdm_y (ssrs_presence_density_map (options_modeling_options s0)))
                (pdm_normalized_presence_density
                   (ssrs_presence_density_map (options_modeling_options s0))) 3 3)
      as [e He]; [lia|].
    exists e. apply setup_failure. exact He.
Qed.

(** C7. Two query batches of the same length that agree at index i get the
    same density at index i, whatever they hold at the other indices. *)
Theorem compute_noninterference (s : Self) (spl : RectBivariateSpline)
    (inputs inputs' : gmap string (list F))
    (outputs outputs' : gmap string (list (list (list F))))
    (xs ys xs' ys' : list F) (i : nat) :
  eagle_density_function s = Some spl ->
  inputs !! "x_turbines" = Some xs -> inputs !! "y_turbines" = Some ys ->
  inputs' !! "x_turbines" = Some xs' -> inputs' !! "y_turbines" = Some ys' ->
  length xs = length ys -> length xs' = length ys' -> length xs = length xs' ->
  xs !! i = xs' !! i -> ys !! i = ys' !! i ->
  exists out out' density density',
    compute inputs outputs s = (inr out, s) /\
    compute inputs' outputs' s = (inr out', s) /\
    out !! "eagle_normalized_density" = Some density /\
    out' !! "eagle_normalized_density" = Some density' /\
    density !! i = density' !! i.
Proof.
  intros Hs Hx Hy Hx' Hy' _ _ _ Exi Eyi.
  do 4 eexists.
  split; [apply (compute_eval s spl inputs outputs xs ys); assumption|].
  split; [apply (compute_eval s spl inputs' outputs' xs' ys'); assumption|].
  split; [apply lookup_insert_eq|]. split; [apply lookup_insert_eq|].
  now rewrite !lookup_zip_with, Exi, Eyi.
Qed.

(** C8. Neither [compute] nor [compute_partials] changes the component:
    after any sequence of calls the component, the fitted interpolant
    included, is the one the sequence started from, so a call with a given
    query batch returns what it returned before. *)
Theorem evaluation_is_stateless (cs : list call) (s : Self)
    (inputs : gmap string (list F))
    (outputs : gmap string (list (list (list F))))
    (partials : gmap (string * string) (list (list F))) :
  snd (compute inputs outputs s) = s /\
  snd (compute_partials inputs partials s) = s /\
  run_calls cs s = s /\
  compute inputs outputs (run_calls cs s) = compute inputs outputs s /\
  compute_partials inputs partials (run_calls cs s)
    = compute_partials inputs partials s.
Proof.
  rewrite run_calls_frame.
  auto using compute_frame, compute_partials_frame.
Qed.

End Facts.

End EagleDensityFacts.

(** ** The facts at the concrete instances *)

Module EagleDensityExamples.

Import EagleDensity Examples EagleDensityFacts.

#[local] Open Scope Z_scope.

Lemma component4_spline : eagle_density_function component4 = Some spline4.
Proof. reflexivity. Qed.

Example diag_two : diag [5; 7] = [[5; 0]; [0; 7]].
Proof. reflexivity. Qed.

Example ev_broadcasts_a_single_point :
  ev spline4 [4] [0; 1; 2] 0 0 = inr [4; 5; 6].
Proof. reflexivity. Qed.

Example setup_declares_the_variables :
  map var_name (var_inputs component4) = ["x_turbines"; "y_turbines"] /\
  map var_name (var_outputs component4) = ["eagle_normalized_density"] /\
  map var_val (var_inputs component4) = [[0; 0]; [0; 0]] /\
  N_turbines component4 = Some 2%nat.
Proof. repeat split. Qed.

(** On arrays of different lengths [compute_partials] does raise: the
    arrays cannot be broadcast. *)
Example compute_partials_on_length_mismatch :
  compute_partials (query_batch [0; 1; 2] [0; 1]) ∅ component4
  = (inl (ValueError "shape mismatch: objects cannot be broadcast to a single shape"),
     component4).
Proof. reflexivity. Qed.

Lemma setup_options4 : setup (new_component options4) = (inr tt, component4).
Proof. reflexivity. Qed.

Lemma query_batch_x (xs ys : list Z) : query_batch xs ys !! "x_turbines" = Some xs.
Proof. unfold query_batch. now rewrite lookup_insert_ne, lookup_insert_eq. Qed.

Lemma query_batch_y (xs ys : list Z) : query_batch xs ys !! "y_turbines" = Some ys.
Proof. unfold query_batch. now rewrite lookup_insert_eq. Qed.

(** The batch x = [0, 2], y = [1, 3] on the plane x + y. *)
Lemma compute_density_pointwise_witness :
  exists density,
    compute (query_batch [0; 2] [1; 3]) ∅ component4
      = (inr (<["eagle_normalized_density" := density]> ∅), component4) /\
    length density = 2%nat /\
    forall i xi yi, [0; 2] !! i = Some xi -> [1; 3] !! i = Some yi ->
      call_grid spline4 [xi] [yi] 0 0 = inr [[xi + yi]] /\
      density !! i = Some [[xi + yi]].
Proof.
  apply (compute_density_pointwise component4 spline4
           (query_batch [0; 2] [1; 3]) ∅ [0; 2] [1; 3]).
  - apply component4_spline.
  - apply query_batch_x.
  - apply query_batch_y.
  - reflexivity.
Defined.

Lemma compute_partials_diagonal_witness :
  exists spl Jx Jy,
    eagle_density_function component4 = Some spl /\
    compute_partials (query_batch [0; 2] [1; 3]) ∅ component4
      = (inr (<[("eagle_normalized_density", "y_turbines") := Jy]>
               (<[("eagle_normalized_density", "x_turbines") := Jx]> ∅)), component4) /\
    length Jx = 2%nat /\ length Jy = 2%nat /\
    (forall i row, Jx !! i = Some row -> length row = 2%nat) /\
    (forall i row, Jy !! i = Some row -> length row = 2%nat) /\
    (forall i j xi yi, [0; 2] !! i = Some xi -> [1; 3] !! i = Some yi -> (j < 2)%nat ->
       entry Jx i j = Some (if Nat.eqb i j then parder (spl_tck spl) 1 0 xi yi else 0) /\
       entry Jy i j = Some (if Nat.eqb i j then parder (spl_tck spl) 0 1 xi yi else 0)).
Proof.
  exact (compute_partials_diagonal (new_component options4) component4
           (query_batch [0; 2] [1; 3]) ∅ [0; 2] [1; 3]
           setup_options4 (query_batch_x _ _) (query_batch_y _ _) eq_refl).
Defined.

(** Three x-coordinates against two y-coordinates: no error, two densities. *)
Lemma length_mismatch_is_not_rejected :
  length [0; 1; 2] <> length [0; 1] /\
  compute (query_batch [0; 1; 2] [0; 1]) ∅ component4
    = (inr (<["eagle_normalized_density" := [[[0]]; [[2]]]]> ∅), component4).
Proof.
  split; [simpl; lia|].
  rewrite (compute_eval component4 spline4 _ _ [0; 1; 2] [0; 1]
             component4_spline (query_batch_x _ _) (query_batch_y _ _)).
  reflexivity.
Qed.

Lemma compute_truncates_on_length_mismatch_witness :
  exists density,
    compute (query_batch [0; 1; 2] [0; 1]) ∅ component4
      = (inr (<["eagle_normalized_density" := density]> ∅), component4) /\
    length density = 2%nat /\
    forall i xi yi, [0; 1; 2] !! i = Some xi -> [0; 1] !! i = Some yi ->
      density !! i = Some [[xi + yi]].
Proof.
  apply (compute_truncates_on_length_mismatch component4 spline4
           (query_batch [0; 1; 2] [0; 1]) ∅ [0; 1; 2] [0; 1]).
  - apply component4_spline.
  - apply query_batch_x.
  - apply query_batch_y.
  - simpl. lia.
Defined.

(** On the 3 x 3 grid the library accepts a quadratic and a linear fit, but
    [setup] asks for the cubic one and fails. *)
Lemma cubic_fit_is_not_reduced :
  (exists spl, RectBivariateSpline_init [0; 1; 2] [0; 1; 2]
                 (ramp [0; 1; 2] [0; 1; 2]) 2 2 = inr spl) /\
  (exists spl, RectBivariateSpline_init [0; 1; 2] [0; 1; 2]
                 (ramp [0; 1; 2] [0; 1; 2]) 1 1 = inr spl) /\
  fst (setup (new_component options3))
    = inl (DfitpackError "(mx>kx) failed for hidden mx") /\
  eagle_density_function (snd (setup (new_component options3))) = None.
Proof.
  split; [eexists; reflexivity|]. split; [eexists; reflexivity|].
  split; reflexivity.
Qed.

Lemma setup_cubic_or_fails_witness :
  (exists s spl, setup (new_component options4) = (inr tt, s) /\
                 eagle_density_function s = Some spl /\ degrees spl = (3%nat, 3%nat)) /\
  (exists e s, setup (new_component options3) = (inl e, s) /\
               eagle_density_function s = None).
Proof.
  split.
  - apply (setup_cubic_or_fails (new_component options4)); try reflexivity; simpl; lia.
  - apply (setup_cubic_or_fails (new_component options3)). simpl. lia.
Defined.



(** Two batches that agree at index 1 only. *)
Lemma compute_noninterference_witness :
  exists out out' density density',
    compute (query_batch [0; 2] [1; 3]) ∅ component4 = (inr out, component4) /\
    compute (query_batch [5; 2] [7; 3]) ∅ component4 = (inr out', component4) /\
    out !! "eagle_normalized_density" = Some density /\
    out' !! "eagle_normalized_density" = Some density' /\
    density !! 1%nat = density' !! 1%nat.
Proof.
  apply (compute_noninterference component4 spline4
           (query_batch [0; 2] [1; 3]) (query_batch [5; 2] [7; 3]) ∅ ∅
           [0; 2] [1; 3] [5; 2] [7; 3] 1).
  - apply component4_spline.
  - apply query_batch_x.
  - apply query_batch_y.
  - apply query_batch_x.
  - apply query_batch_y.
  - reflexivity.
  - reflexivity.
  - reflexivity.
  - reflexivity.
  - reflexivity.
Defined.

End EagleDensityExamples.

(** ** Facts about [ard/utils/logging.py] *)

Module LoggingFacts.

Import Logging.

#[local] Open Scope list_scope.


(** *** Keys of the file system *)

Lemma removelast_prefix (k : list string) : removelast k `prefix_of` k.
Proof.
  destruct (decide (k = [])) as [->|Hk]; [reflexivity|].
  exists [List.last k ""]. now apply app_removelast_last.
Qed.

Lemma prefix_removelast (p k : list string) :
  p `prefix_of` k -> p <> k -> p `prefix_of` removelast k.
Proof.
  intros [t ->] Hne.
  destruct (decide (t = [])) as [->|Ht]; [now rewrite app_nil_r in Hne|].
  rewrite removelast_app by assumption. now apply prefix_app_r.
Qed.

Lemma removelast_snoc (k : list string) (a : string) : removelast (k ++ [a]) = k.
Proof. apply removelast_last. Qed.

Lemma lookup_node_nil (m : gmap (list string) node) : lookup_node m [] = Some Dir.
Proof. reflexivity. Qed.

Lemma lookup_node_cons (m : gmap (list string) node) (k : list string) :
  k <> [] -> lookup_node m k = m !! k.
Proof. destruct k; [congruence|reflexivity]. Qed.

Lemma lookup_node_None (m : gmap (list string) node) (k : list string) :
  lookup_node m k = None -> k <> [] /\ m !! k = None.
Proof. destruct k; [discriminate|]. intros Hk. split; [discriminate|exact Hk]. Qed.

Lemma lookup_node_insert_ne (m : gmap (list string) node) (k p : list string) (n : node) :
  p <> k -> lookup_node (<[k := n]> m) p = lookup_node m p.
Proof.
  intros Hne. destruct p; [reflexivity|]. cbn [lookup_node].
  now rewrite lookup_insert_ne.
Qed.

Lemma lookup_node_insert_eq (m : gmap (list string) node) (k : list string) (n : node) :
  k <> [] -> lookup_node (<[k := n]> m) k = Some n.
Proof.
  intros Hk. rewrite lookup_node_cons by assumption. apply lookup_insert_eq.
Qed.

(** *** [os.mkdir] *)

Lemma os_mkdir_ok (k : list string) (w w' : World) :
  os_mkdir k w = (inr tt, w') ->
  w' = set_fs (<[k := Dir]> (fs w)) w /\
  lookup_node (fs w) k = None /\
  lookup_node (fs w) (removelast k) = Some Dir.
Proof.
  unfold os_mkdir.
  destruct (lookup_node (fs w) k); [discriminate|].
  destruct (lookup_node (fs w) (removelast k)) as [[|c]|]; try discriminate.
  intros [= <-]. auto.
Qed.

Lemma os_mkdir_err (k : list string) (w w' : World) (e : exn) :
  os_mkdir k w = (inl e, w') ->
  w' = w /\
  ((e = FileExistsError /\ lookup_node (fs w) k <> None) \/
   (e = NotADirectoryError /\ lookup_node (fs w) k = None /\
    exists c, lookup_node (fs w) (removelast k) = Some (File c)) \/
   (e = FileNotFoundError /\ lookup_node (fs w) k = None /\
    lookup_node (fs w) (removelast k) = None)).
Proof.
  unfold os_mkdir.
  destruct (lookup_node (fs w) k) as [n|].
  { intros [= <- <-]. split; [reflexivity|]. left. split; [reflexivity|discriminate]. }
  destruct (lookup_node (fs w) (removelast k)) as [[|c]|]; try discriminate.
  - intros [= <- <-]. split; [reflexivity|]. right; left. eauto.
  - intros [= <- <-]. split; [reflexivity|]. right; right. auto.
Qed.

Lemma same_process_refl (w : World) : same_process w w.
Proof. repeat split. Qed.

Lemma same_process_trans (w1 w2 w3 : World) :
  same_process w1 w2 -> same_process w2 w3 -> same_process w1 w3.
Proof.
  intros (A1 & A2 & A3 & A4) (B1 & B2 & B3 & B4).
  repeat split; congruence.
Qed.

Lemma same_process_set_fs (m : gmap (list string) node) (w : World) :
  same_process w (set_fs m w).
Proof. repeat split. Qed.

Lemma grows_refl (k : list string) (m : gmap (list string) node) : grows k m m.
Proof. intros q. now left. Qed.

Lemma grows_insert (k : list string) (m : gmap (list string) node) :
  lookup_node m k = None -> grows k m (<[k := Dir]> m).
Proof.
  intros Hk q. apply lookup_node_None in Hk as [_ Hk].
  destruct (decide (q = k)) as [->|Hne].
  - right. now rewrite lookup_insert_eq.
  - left. now rewrite lookup_insert_ne.
Qed.

Lemma grows_trans_parent (k : list string) (m m1 m2 : gmap (list string) node) :
  grows (removelast k) m m1 -> grows k m1 m2 -> grows k m m2.
Proof.
  intros G1 G2 q.
  destruct (G1 q) as [E1|(N1 & D1 & P1)], (G2 q) as [E2|(N2 & D2 & P2)].
  - left. congruence.
  - right. repeat split; [congruence|assumption..].
  - right. repeat split; [assumption|congruence|].
    etrans; [exact P1|apply removelast_prefix].
  - congruence.
Qed.

Lemma fs_wf_insert_dir (m : gmap (list string) node) (k : list string) :
  fs_wf m ->
  lookup_node m k = None ->
  lookup_node m (removelast k) = Some Dir ->
  fs_wf (<[k := Dir]> m).
Proof.
  intros Hwf Hk Hparent q n p Hq Hp Hne.
  destruct (lookup_node_None _ _ Hk) as [Hknil Hkm].
  destruct (decide (p = k)) as [->|Hpk]; [now apply lookup_node_insert_eq|].
  rewrite lookup_node_insert_ne by assumption.
  destruct (decide (q = k)) as [->|Hqk].
  - pose proof (prefix_removelast _ _ Hp Hne) as Hp'.
    destruct (decide (p = removelast k)) as [->|Hne']; [assumption|].
    destruct (decide (removelast k = [])) as [Hnil|Hnn].
    + rewrite Hnil in Hp'. apply prefix_nil_inv in Hp'. now subst p.
    + rewrite lookup_node_cons in Hparent by assumption.
      exact (Hwf _ _ _ Hparent Hp' Hne').
  - rewrite lookup_insert_ne in Hq by congruence.
    exact (Hwf _ _ _ Hq Hp Hne).
Qed.

Lemma extends_refl (k : list string) (w : World) : extends k w w.
Proof. split; [apply same_process_refl|]. split; [apply grows_refl|auto]. Qed.

Lemma extends_trans_parent (k : list string) (w w1 w2 : World) :
  extends (removelast k) w w1 -> extends k w1 w2 -> extends k w w2.
Proof.
  intros (S1 & G1 & W1) (S2 & G2 & W2). split; [|split].
  - eapply same_process_trans; eassumption.
  - eapply grows_trans_parent; eassumption.
  - auto.
Qed.

Lemma os_mkdir_extends (k : list string) (w w' : World) (r : exn + unit) :
  os_mkdir k w = (r, w') -> extends k w w'.
Proof.
  destruct r as [e|[]]; intros Hos.
  - apply os_mkdir_err in Hos as [-> _]. apply extends_refl.
  - apply os_mkdir_ok in Hos as (-> & Hk & Hp). split; [|split].
    + apply same_process_set_fs.
    + now apply grows_insert.
    + intros Hwf. now apply fs_wf_insert_dir.
Qed.

Lemma extends_parent (k : list string) (w w' : World) :
  extends (removelast k) w w' -> extends k w w'.
Proof. intros He. eapply extends_trans_parent; [exact He|apply extends_refl]. Qed.

Lemma removelast_length (k : list string) (n : nat) :
  length k = S n -> length (removelast k) = n.
Proof.
  intros Hk. rewrite removelast_firstn_len, length_take, Hk. simpl. lia.
Qed.

Lemma not_prefix_removelast (k : list string) :
  k <> [] -> ~ k `prefix_of` removelast k.
Proof.
  intros Hk Hp. apply prefix_length in Hp.
  destruct k as [|a k]; [congruence|].
  rewrite (removelast_length (a :: k) (length k)) in Hp by reflexivity.
  simpl in Hp. lia.
Qed.

(** *** [Path.mkdir] *)

Lemma is_dir_true (k : list string) (w : World) :
  is_dir k w = true -> lookup_node (fs w) k = Some Dir.
Proof.
  unfold is_dir. destruct (lookup_node (fs w) k) as [[|c]|]; auto; discriminate.
Qed.

Lemma mkdir_here_spec (k : list string) (ex : bool) (w w' : World) (r : exn + unit) :
  mkdir_here k ex w = (r, w') ->
  extends k w w' /\ (r = inr tt -> lookup_node (fs w') k = Some Dir).
Proof.
  unfold mkdir_here. destruct (os_mkdir k w) as [[e|[]] w1] eqn:Hos.
  - pose proof Hos as Herr. apply os_mkdir_err in Herr as [-> _].
    destruct e; cbn;
      try (destruct (negb ex || negb (is_dir k w)) eqn:Hc);
      intros [= <- <-]; (split; [apply extends_refl|]); intros Hr;
      try discriminate Hr.
    all: apply is_dir_true; destruct ex, (is_dir k w); try discriminate; reflexivity.
  - intros [= <- <-]. split; [eapply os_mkdir_extends; eassumption|].
    intros _. apply os_mkdir_ok in Hos as (-> & Hk & _).
    apply lookup_node_None in Hk as [Hk _]. now apply lookup_node_insert_eq.
Qed.

Lemma Path_mkdir_go_spec (n : nat) :
  forall (k : list string) (parents ex : bool) (w w' : World) (r : exn + unit),
    Path_mkdir_go n k parents ex w = (r, w') ->
    extends k w w' /\
    (r = inr tt -> lookup_node (fs w') k = Some Dir) /\
    (ex = false -> r = inr tt -> lookup_node (fs w) k = None).
Proof.
  induction n as [|n IH]; intros k parents ex w w' r; cbn [Path_mkdir_go];
    destruct (os_mkdir k w) as [[e|[]] w1] eqn:Hos.
  1, 3: pose proof Hos as Herr;
    apply os_mkdir_err in Herr
      as [-> [[-> Hl]|[(-> & Hl & c & Hc)|(-> & Hl & Hp)]]]; cbn.
  1, 2, 4, 5:
    destruct (negb ex || negb (is_dir k w)) eqn:Hcond;
    intros [= <- <-]; (split; [apply extends_refl|]);
    (split; [intros Hr; try discriminate Hr; apply is_dir_true;
             destruct ex, (is_dir k w); try discriminate; reflexivity
            |intros -> Hr; try discriminate Hr; discriminate Hcond]).
  - intros [= <- <-]. split; [apply extends_refl|]. split; intros; discriminate.
  - destruct parents; cbn.
    2: { intros [= <- <-]. split; [apply extends_refl|]. split; intros; discriminate. }
    unfold bind.
    destruct (Path_mkdir_go n (removelast k) true true w) as [[e1|[]] w2] eqn:Hrec.
    + intros [= <- <-]. apply IH in Hrec as (He & _ & _).
      split; [now apply extends_parent|]. split; intros; discriminate.
    + intros Hhere. apply IH in Hrec as (He & _ & _).
      apply mkdir_here_spec in Hhere as (He' & Hok).
      split; [eapply extends_trans_parent; eassumption|]. split; [exact Hok|auto].
  - intros [= <- <-]. split; [eapply os_mkdir_extends; eassumption|].
    apply os_mkdir_ok in Hos as (-> & Hk & _). split; [|auto].
    intros _. apply lookup_node_None in Hk as [Hk _]. now apply lookup_node_insert_eq.
  - intros [= <- <-]. split; [eapply os_mkdir_extends; eassumption|].
    apply os_mkdir_ok in Hos as (-> & Hk & _). split; [|auto].
    intros _. apply lookup_node_None in Hk as [Hk _]. now apply lookup_node_insert_eq.
Qed.

Lemma no_file_on_path_parent (m : gmap (list string) node) (k : list string) :
  no_file_on_path m k -> no_file_on_path m (removelast k).
Proof.
  intros Hn p c Hp. apply Hn. etrans; [exact Hp|apply removelast_prefix].
Qed.

Lemma Path_mkdir_go_no_file (n : nat) :
  forall (k : list string) (ex : bool) (w : World),
    length k = n ->
    no_file_on_path (fs w) k ->
    (exists w', Path_mkdir_go n k true ex w = (inr tt, w')) \/
    (ex = false /\ lookup_node (fs w) k <> None /\
     Path_mkdir_go n k true ex w = (inl FileExistsError, w)).
Proof.
  induction n as [|n IH]; intros k ex w Hlen Hnf; cbn [Path_mkdir_go];
    destruct (os_mkdir k w) as [[e|[]] w1] eqn:Hos; try (left; eauto; fail).
  all: pose proof Hos as Herr;
    apply os_mkdir_err in Herr
      as [-> [[-> Hl]|[(-> & Hl & c & Hc)|(-> & Hl & Hp)]]]; cbn.
  1, 4:
    assert (Hd : is_dir k w = true)
      by (unfold is_dir; pose proof (Hnf k) as Hk;
          destruct (lookup_node (fs w) k) as [[|c]|];
          [reflexivity | exfalso; now apply (Hk c) | congruence]);
    rewrite Hd; destruct ex; cbn; [left; eauto | right; auto].
  1, 3: exfalso; apply (Hnf (removelast k) c); [apply removelast_prefix|exact Hc].
  - apply nil_length_inv in Hlen. subst k. discriminate Hl.
  - unfold bind.
    destruct (IH (removelast k) true w (removelast_length _ _ Hlen)
                (no_file_on_path_parent _ _ Hnf))
      as [[w2 Hrec]|(Hf & _)]; [|discriminate Hf].
    rewrite Hrec.
    apply Path_mkdir_go_spec in Hrec as ((_ & Hg & _) & Hdir & _).
    specialize (Hdir eq_refl).
    apply lookup_node_None in Hl as [Hk Hl].
    assert (Hk2 : lookup_node (fs w2) k = None).
    { rewrite lookup_node_cons by assumption.
      destruct (Hg k) as [->|(_ & _ & Hpre)]; [assumption|].
      now apply not_prefix_removelast in Hpre. }
    left. unfold mkdir_here, os_mkdir. rewrite Hk2, Hdir. eauto.
Qed.

(** *** A clean log location *)

Lemma resolve_same_process (w w' : World) (p : Path) :
  same_process w w' -> resolve w' p = resolve w p.
Proof. intros (Hc & _). unfold resolve. now rewrite Hc. Qed.

Lemma below_absent (m : gmap (list string) node) (d q : list string) :
  fs_wf m -> lookup_node m d <> Some Dir ->
  d `prefix_of` q -> q <> d -> m !! q = None.
Proof.
  intros Hwf Hd Hp Hne. destruct (m !! q) as [n|] eqn:Hq; [|reflexivity].
  exfalso. apply Hd. eapply Hwf; eauto.
Qed.

Lemma grows_below (k q : list string) (m m' : gmap (list string) node) :
  grows k m m' -> k `prefix_of` q -> q <> k -> m' !! q = m !! q.
Proof.
  intros Hg Hp Hne. destruct (Hg q) as [E|(_ & _ & Hp')]; [exact E|].
  exfalso. apply Hne. now apply (anti_symm prefix).
Qed.

Lemma mkdir_fresh (n : nat) (d : list string) (ex : bool) (w w' : World) :
  Path_mkdir_go n d true ex w = (inr tt, w') ->
  (forall q, d `prefix_of` q -> q <> d -> fs w !! q = None) ->
  fresh_dir (fs w') d.
Proof.
  intros Hgo Hbelow. apply Path_mkdir_go_spec in Hgo as ((_ & Hg & _) & Hdir & _).
  split; [now apply Hdir|].
  intros q Hp Hne. rewrite (grows_below d q _ _ Hg Hp Hne). now apply Hbelow.
Qed.

Lemma rmtree_spec (P : Path) (w : World) :
  exists w2, rmtree_ignore_errors P w = (inr tt, w2) /\
    same_process w w2 /\
    (forall q, fs w2 !! q = fs w !! q \/ fs w2 !! q = None) /\
    (fs_wf (fs w) ->
     forall q, resolve w P `prefix_of` q -> q <> resolve w P -> fs w2 !! q = None).
Proof.
  unfold rmtree_ignore_errors.
  destruct (lookup_node (fs w) (resolve w P)) as [[|c]|] eqn:Hd.
  - eexists. split; [reflexivity|]. split; [apply same_process_set_fs|]. split.
    + intros q. cbn.
      destruct (filter _ (fs w) !! q) as [n|] eqn:Hq; [|now right].
      left. apply map_lookup_filter_Some in Hq as [Hq _]. now rewrite Hq.
    + intros _ q Hp _. cbn. apply map_lookup_filter_None_2. right.
      intros n _ Hnot. now apply Hnot.
  - exists w. split; [reflexivity|]. split; [apply same_process_refl|].
    split; [now left|]. intros Hwf q Hp Hne.
    eapply below_absent; eauto. congruence.
  - exists w. split; [reflexivity|]. split; [apply same_process_refl|].
    split; [now left|]. intros Hwf q Hp Hne.
    eapply below_absent; eauto. congruence.
Qed.

Lemma no_file_on_path_shrink (m m' : gmap (list string) node) (k : list string) :
  (forall q, m' !! q = m !! q \/ m' !! q = None) ->
  no_file_on_path m k -> no_file_on_path m' k.
Proof.
  intros Hs Hn p c Hp. specialize (Hn p c Hp).
  destruct p as [|a p]; [discriminate|]. cbn [lookup_node] in *.
  destruct (Hs (a :: p)) as [->| ->]; [assumption|discriminate].
Qed.

Lemma clean_location (P : Path) (w w1 : World) (r : exn + unit) :
  try_except (Path_mkdir P true false)
    (fun e =>
       match e with
       | FileExistsError =>
           Some (rmtree_ignore_errors P ;; Path_mkdir P true true)
       | _ => None
       end) w = (r, w1) ->
  fs_wf (fs w) ->
  same_process w w1 /\
  (r = inr tt -> fresh_dir (fs w1) (resolve w P)) /\
  (no_file_on_path (fs w) (resolve w P) -> r = inr tt).
Proof.
  intros Hrun Hwf. unfold try_except, Path_mkdir in Hrun.
  pose proof (Path_mkdir_go_no_file (length (resolve w P)) (resolve w P) false w eq_refl)
    as Htotal.
  destruct (Path_mkdir_go (length (resolve w P)) (resolve w P) true false w)
    as [[e|[]] w0] eqn:Hfirst.
  - pose proof Hfirst as Hspec.
    apply Path_mkdir_go_spec in Hspec as ((Hsame0 & _ & Hwf0) & _ & _).
    specialize (Hwf0 Hwf).
    assert (Hhandled :
      e = FileExistsError ->
      (rmtree_ignore_errors P ;; Path_mkdir P true true) w0 = (r, w1) ->
      same_process w w1 /\
      (r = inr tt -> fresh_dir (fs w1) (resolve w P)) /\
      (no_file_on_path (fs w) (resolve w P) -> r = inr tt)).
    { intros -> Hh. unfold bind in Hh.
      destruct (rmtree_spec P w0) as (w2 & Hrm & Hsame2 & Hshrink & Hgone).
      rewrite Hrm in Hh. unfold Path_mkdir in Hh.
      assert (Hres2 : resolve w2 P = resolve w P).
      { rewrite (resolve_same_process w0 w2) by assumption.
        now apply resolve_same_process. }
      rewrite Hres2 in Hh.
      pose proof Hh as Hspec2.
      apply Path_mkdir_go_spec in Hspec2 as ((Hsame1 & _ & _) & _ & _).
      split; [|split].
      - eapply same_process_trans; [exact Hsame0|].
        eapply same_process_trans; eassumption.
      - intros ->. eapply mkdir_fresh; [exact Hh|].
        intros q Hp Hne. apply (Hgone Hwf0).
        + now rewrite (resolve_same_process w w0).
        + now rewrite (resolve_same_process w w0).
      - intros Hnf.
        destruct (Htotal Hnf) as [[w' Hok]|(_ & _ & Hsame)]; [congruence|].
        assert (w0 = w) by congruence. subst w0.
        destruct (Path_mkdir_go_no_file (length (resolve w P)) (resolve w P) true w2
                    eq_refl (no_file_on_path_shrink _ _ _ Hshrink Hnf))
          as [[w' Hok]|(Hf & _)]; [congruence|discriminate Hf]. }
    assert (Hunhandled :
      e <> FileExistsError -> (inl e, w0) = (r, w1) ->
      same_process w w1 /\
      (r = inr tt -> fresh_dir (fs w1) (resolve w P)) /\
      (no_file_on_path (fs w) (resolve w P) -> r = inr tt)).
    { intros Hne [= <- <-]. split; [exact Hsame0|]. split; [discriminate|].
      intros Hnf. destruct (Htotal Hnf) as [[w' Hok]|(_ & _ & Hsame)]; congruence. }
    destruct e; try (apply Hunhandled; [discriminate|exact Hrun]).
    now apply Hhandled.
  - injection Hrun as <- <-.
    pose proof Hfirst as Hspec.
    apply Path_mkdir_go_spec in Hspec as ((Hsame0 & _ & _) & _ & Habsent).
    split; [exact Hsame0|]. split; [|reflexivity].
    intros _. eapply mkdir_fresh; [exact Hfirst|].
    intros q Hp Hne. eapply below_absent; eauto.
    rewrite (Habsent eq_refl eq_refl). discriminate.
Qed.

(** *** Characters of a string *)

Lemma string_app_assoc (s t u : string) : (s +:+ t) +:+ u = s +:+ t +:+ u.
Proof.
  induction s as [|a s IH]; [reflexivity|].
  change (String a ((s +:+ t) +:+ u) = String a (s +:+ t +:+ u)). now f_equal.
Qed.

Lemma char_in_app (c : Ascii.ascii) (s t : string) :
  char_in c (s +:+ t) = char_in c s || char_in c t.
Proof.
  induction s as [|a s IH]; [reflexivity|].
  change (Ascii.eqb a c || char_in c (s +:+ t)
          = Ascii.eqb a c || char_in c s || char_in c t).
  rewrite IH. apply orb_assoc.
Qed.

Lemma char_in_zero_fill (c : Ascii.ascii) (n : nat) :
  c <> "0"%char -> char_in c (zero_fill n) = false.
Proof.
  intros Hc. induction n as [|n IH]; [reflexivity|].
  change (Ascii.eqb "0" c || char_in c (zero_fill n) = false).
  rewrite IH, orb_false_r. apply Ascii.eqb_neq. congruence.
Qed.

Lemma is_digit_pretty_N_char (x : N) : is_digit (pretty_N_char x) = true.
Proof.
  unfold pretty_N_char. destruct x as [|p]; [reflexivity|].
  do 4 (try (destruct p as [p|p|]; try reflexivity)).
Qed.

Lemma char_in_pretty_N_char (c : Ascii.ascii) (x : N) :
  is_digit c = false -> Ascii.eqb (pretty_N_char x) c = false.
Proof.
  intros Hc. apply Ascii.eqb_neq. intros <-.
  rewrite is_digit_pretty_N_char in Hc. discriminate Hc.
Qed.

Lemma char_in_pretty_N_go (c : Ascii.ascii) (x : N) (s : string) :
  is_digit c = false -> char_in c (pretty_N_go x s) = char_in c s.
Proof.
  intros Hc. revert s. induction (N.lt_wf_0 x) as [x _ IH]. intros s.
  destruct (decide (x = 0)%N) as [->|Hx]; [now rewrite pretty_N_go_0|].
  rewrite pretty_N_go_step by lia.
  rewrite IH by (apply N.div_lt; lia).
  cbn [char_in]. now rewrite char_in_pretty_N_char.
Qed.

Lemma char_in_pretty_abs (c : Ascii.ascii) (z : Z) :
  is_digit c = false -> char_in c (pretty (Z.abs z)) = false.
Proof.
  intros Hc.
  assert (Hpos : forall p : positive, char_in c (pretty (Z.pos p)) = false).
  { intros p. unfold pretty, pretty_Z, pretty, pretty_positive, pretty, pretty_N.
    rewrite decide_False by discriminate. now rewrite char_in_pretty_N_go. }
  destruct z as [|p|p]; cbn [Z.abs]; [|apply Hpos..].
  change (Ascii.eqb "0" c || false = false). rewrite orb_false_r.
  apply Ascii.eqb_neq. intros <-. discriminate Hc.
Qed.

Lemma char_in_format_0d (c : Ascii.ascii) (width : nat) (z : Z) :
  is_digit c = false -> c <> "-"%char -> char_in c (format_0d width z) = false.
Proof.
  intros Hc Hd. unfold format_0d.
  assert (H0 : c <> "0"%char) by (intros ->; discriminate Hc).
  destruct (z <? 0)%Z.
  - change (Ascii.eqb "-" c
            || char_in c (zero_fill (width - 1 - String.length (pretty (Z.abs z)))
                          +:+ pretty (Z.abs z)) = false).
    rewrite char_in_app, char_in_zero_fill, char_in_pretty_abs by assumption.
    rewrite orb_false_r. apply Ascii.eqb_neq. congruence.
  - now rewrite char_in_app, char_in_zero_fill, char_in_pretty_abs.
Qed.

Lemma char_in_logfile_name (c : Ascii.ascii) (component : Object) (s : string) :
  is_digit c = false -> c <> "-"%char ->
  char_in c "_rank" = false -> char_in c ".txt" = false -> char_in c s = false ->
  char_in c (logfile_name component s) = false.
Proof.
  intros Hc Hd H1 H2 Hs. unfold logfile_name.
  now rewrite !char_in_app, Hs, H1, H2, char_in_format_0d.
Qed.

(** *** The operator [%] on the template *)

Lemma percent_go_text (s : string) (sp : conv_spec) :
  char_in "%" s = false -> percent_go Text sp None s = inr s.
Proof.
  induction s as [|a s IH]; [reflexivity|].
  intros Hs. cbn [char_in] in Hs. apply orb_false_elim in Hs as [Ha Hs].
  cbn [percent_go parse_char]. rewrite Ha, (IH Hs). reflexivity.
Qed.

Lemma convert_percent (sp : conv_spec) (arg : option string) :
  convert "%" sp arg = inr ("%", arg).
Proof. reflexivity. Qed.

Lemma convert_cases (c : Ascii.ascii) (sp : conv_spec) (a out : string)
    (arg' : option string) :
  convert c sp (Some a) = inr (out, arg') ->
  (c = "%"%char /\ out = "%" /\ arg' = Some a) \/ arg' = None.
Proof.
  unfold convert. destruct (Ascii.eqb_spec c "%") as [->|_].
  - intros [= <- <-]. now left.
  - intros Hc. right.
    repeat match type of Hc with
           | (if ?b then _ else _) = _ => destruct b
           end; congruence.
Qed.

Lemma convert_no_arg (c : Ascii.ascii) (sp : conv_spec) :
  c = "%"%char \/ exists e, convert c sp None = inl e.
Proof.
  unfold convert. destruct (Ascii.eqb_spec c "%") as [->|_]; eauto.
Qed.

(** Once the argument is taken, the template cannot be filled. *)
Lemma percent_go_no_arg (P : string) (st : fmt_state) (sp : conv_spec)
    (suffix : string) :
  exists e, percent_go st sp None (P +:+ "/%s" +:+ suffix) = inl e.
Proof.
  revert st sp. induction P as [|c P IH]; intros st sp.
  - destruct st; cbn; eauto.
  - change (String c P +:+ "/%s" +:+ suffix) with (String c (P +:+ "/%s" +:+ suffix)).
    cbn [percent_go]. destruct (parse_char st sp c) as [|st' sp'| |e|sp'].
    + destruct (IH Text sp) as [e ->]. cbn. eauto.
    + apply IH.
    + eauto.
    + eauto.
    + destruct (convert_no_arg c sp') as [->|[e ->]]; [|cbn; eauto].
      rewrite convert_percent. cbn [and_then].
      destruct (IH Text sp') as [e ->]. cbn. eauto.
Qed.

(** When the template is filled, what stands before its last part came
    through the operator with no argument taken, and comes out the same
    for any argument and any name after it. *)
Lemma percent_go_prefix (P : string) (st : fmt_state) (sp : conv_spec)
    (a suffix r : string) :
  percent_go st sp (Some a) (P +:+ "/%s" +:+ suffix) = inr r ->
  exists P', forall a' suffix',
    char_in "%" suffix' = false ->
    percent_go st sp (Some a') (P +:+ "/%s" +:+ suffix')
    = inr (P' +:+ "/" +:+ a' +:+ suffix').
Proof.
  revert st sp r. induction P as [|c P IH]; intros st sp r Hr.
  - destruct st; try (cbn in Hr; discriminate Hr).
    exists "". intros a' suffix' Hs.
    change ("" +:+ "/%s" +:+ suffix') with (String "/" (String "%" (String "s" suffix'))).
    cbn. rewrite (percent_go_text _ _ Hs). reflexivity.
  - change (String c P +:+ "/%s" +:+ suffix)
      with (String c (P +:+ "/%s" +:+ suffix)) in Hr.
    cbn [percent_go] in Hr.
    destruct (parse_char st sp c) as [|st' sp'| |e|sp'] eqn:Hp.
    + destruct (percent_go Text sp (Some a) (P +:+ "/%s" +:+ suffix))
        as [e|r0] eqn:Hr0; [discriminate Hr|].
      destruct (IH _ _ _ Hr0) as [P' HP'].
      exists (String c P'). intros a' suffix' Hs.
      change (String c P +:+ "/%s" +:+ suffix')
        with (String c (P +:+ "/%s" +:+ suffix')).
      cbn [percent_go]. rewrite Hp, (HP' a' suffix' Hs). reflexivity.
    + destruct (IH _ _ _ Hr) as [P' HP'].
      exists P'. intros a' suffix' Hs.
      change (String c P +:+ "/%s" +:+ suffix')
        with (String c (P +:+ "/%s" +:+ suffix')).
      cbn [percent_go]. rewrite Hp. exact (HP' a' suffix' Hs).
    + discriminate Hr.
    + discriminate Hr.
    + destruct (convert c sp' (Some a)) as [e|[out arg']] eqn:Hc; [discriminate Hr|].
      cbn [and_then] in Hr.
      destruct (convert_cases _ _ _ _ _ Hc) as [(-> & -> & ->)| ->].
      * destruct (percent_go Text sp' (Some a) (P +:+ "/%s" +:+ suffix))
          as [e|r0] eqn:Hr0; [discriminate Hr|].
        destruct (IH _ _ _ Hr0) as [P' HP'].
        exists (String "%" P'). intros a' suffix' Hs.
        change (String "%" P +:+ "/%s" +:+ suffix')
          with (String "%" (P +:+ "/%s" +:+ suffix')).
        cbn [percent_go]. rewrite Hp, convert_percent. cbn [and_then].
        rewrite (HP' a' suffix' Hs). reflexivity.
      * destruct (percent_go_no_arg P Text sp' suffix) as [e He].
        rewrite He in Hr. discriminate Hr.
Qed.

(** Without a percent sign before the last part, the template is filled
    in the last part and nothing else changes. *)
Lemma percent_go_plain (P : string) (sp : conv_spec) (a suffix : string) :
  char_in "%" P = false -> char_in "%" suffix = false ->
  percent_go Text sp (Some a) (P +:+ "/%s" +:+ suffix)
  = inr (P +:+ "/" +:+ a +:+ suffix).
Proof.
  intros HP Hs. induction P as [|c P IH].
  - change ("" +:+ "/%s" +:+ suffix) with (String "/" (String "%" (String "s" suffix))).
    cbn. rewrite (percent_go_text _ _ Hs). reflexivity.
  - cbn [char_in] in HP. apply orb_false_elim in HP as [Hc HP].
    change (String c P +:+ "/%s" +:+ suffix) with (String c (P +:+ "/%s" +:+ suffix)).
    cbn [percent_go parse_char]. rewrite Hc, (IH HP). reflexivity.
Qed.

(** *** Paths and their strings *)

Lemma split_on_not_nil (c : Ascii.ascii) (s : string) : split_on c s <> [].
Proof.
  induction s as [|a s IH]; [discriminate|]. cbn [split_on].
  destruct (Ascii.eqb a c); [discriminate|].
  destruct (split_on c s); [congruence|discriminate].
Qed.

Lemma split_on_free (c : Ascii.ascii) (s : string) :
  char_in c s = false -> split_on c s = [s].
Proof.
  induction s as [|a s IH]; [reflexivity|].
  intros Hs. cbn [char_in] in Hs. apply orb_false_elim in Hs as [Ha Hs].
  cbn [split_on]. now rewrite Ha, (IH Hs).
Qed.

Lemma split_on_app (c : Ascii.ascii) (a s : string) :
  char_in c a = false ->
  split_on c (a +:+ String c s) = a :: split_on c s.
Proof.
  induction a as [|x a IH]; intros Ha.
  - change (split_on c (String c s) = "" :: split_on c s).
    cbn [split_on]. now rewrite Ascii.eqb_refl.
  - cbn [char_in] in Ha. apply orb_false_elim in Ha as [Hx Ha].
    change (split_on c (String x (a +:+ String c s)) = String x a :: split_on c s).
    cbn [split_on]. now rewrite Hx, (IH Ha).
Qed.

Lemma split_on_snoc (c : Ascii.ascii) (P n : string) :
  char_in c n = false ->
  split_on c (P +:+ String c n) = split_on c P ++ [n].
Proof.
  intros Hn. induction P as [|x P IH].
  - change (split_on c (String c n) = [""] ++ [n]).
    cbn [split_on]. now rewrite Ascii.eqb_refl, (split_on_free _ _ Hn).
  - change (split_on c (String x (P +:+ String c n)) = split_on c (String x P) ++ [n]).
    cbn [split_on]. rewrite IH. destruct (Ascii.eqb x c); [reflexivity|].
    pose proof (split_on_not_nil c P) as Hne.
    destruct (split_on c P); [congruence|reflexivity].
Qed.

Lemma Path_of_string_snoc (P n : string) :
  char_in "/" n = false -> n <> "" -> n <> "." ->
  Path_of_string (P +:+ "/" +:+ n)
  = mkPath (is_absolute (Path_of_string (P +:+ "/")))
      (parts (Path_of_string P) ++ [n]).
Proof.
  intros Hn Hne Hdot. unfold Path_of_string. cbn [is_absolute parts]. f_equal.
  - destruct P; reflexivity.
  - change (P +:+ "/" +:+ n) with (P +:+ String "/" n).
    rewrite (split_on_snoc _ _ _ Hn), filter_app. f_equal.
    rewrite filter_cons_True by (split; assumption). reflexivity.
Qed.

Lemma join_slash_snoc (k : list string) (n : string) :
  k <> [] -> join_slash (k ++ [n]) = join_slash k +:+ "/" +:+ n.
Proof.
  induction k as [|a k IH]; [congruence|]. intros _.
  destruct k as [|b k]; [reflexivity|].
  change (a +:+ "/" +:+ join_slash ((b :: k) ++ [n])
          = (a +:+ "/" +:+ join_slash (b :: k)) +:+ "/" +:+ n).
  rewrite IH by discriminate. now rewrite !string_app_assoc.
Qed.

Lemma as_posix_snoc (b : bool) (k : list string) (n : string) :
  k <> [] ->
  as_posix (mkPath b (k ++ [n]))
  = ((if b then "/" else "") +:+ join_slash k) +:+ "/" +:+ n.
Proof.
  intros Hk. unfold as_posix. cbn [is_absolute parts].
  rewrite (join_slash_snoc _ _ Hk). destruct b; [reflexivity|].
  destruct k; [congruence|reflexivity].
Qed.

Lemma char_in_join_slash (c : Ascii.ascii) (k : list string) :
  c <> "/"%char -> Forall (fun s => char_in c s = false) k ->
  char_in c (join_slash k) = false.
Proof.
  intros Hc Hk. induction Hk as [|a k Ha Hk IH]; [reflexivity|].
  destruct k as [|b k]; [exact Ha|].
  change (char_in c (a +:+ "/" +:+ join_slash (b :: k)) = false).
  rewrite !char_in_app, Ha, IH.
  change (false || (Ascii.eqb "/" c || false || false) = false).
  rewrite !orb_false_r. apply Ascii.eqb_neq. congruence.
Qed.

Lemma split_join_slash (k : list string) :
  Forall (fun s => char_in "/" s = false) k -> k <> [] ->
  split_on "/" (join_slash k) = k.
Proof.
  intros Hk. induction Hk as [|a k Ha Hk IH]; [congruence|]. intros _.
  destruct k as [|b k]; [now apply split_on_free|].
  change (split_on "/" (a +:+ String "/" (join_slash (b :: k))) = a :: b :: k).
  rewrite (split_on_app _ _ _ Ha). f_equal. apply IH. discriminate.
Qed.

Lemma Forall_plain_name (k : list string) :
  Forall plain_name k ->
  Forall (fun s => char_in "/" s = false) k /\
  Forall (fun s => char_in "%" s = false) k /\
  filter (fun seg => seg <> "" /\ seg <> ".") k = k.
Proof.
  intros Hk. induction Hk as [|a k (H1 & H2 & H3 & H4 & H5) Hk (IH1 & IH2 & IH3)].
  - repeat split; constructor.
  - split; [now constructor|]. split; [now constructor|].
    rewrite filter_cons_True by (split; assumption). now f_equal.
Qed.

(** A path of plain names is the path of its string. *)
Lemma Path_of_string_as_posix (b : bool) (k : list string) :
  Forall plain_name k ->
  Path_of_string ((if b then "/" else "") +:+ join_slash k) = mkPath b k /\
  (k <> [] ->
   is_absolute (Path_of_string (((if b then "/" else "") +:+ join_slash k) +:+ "/"))
   = b).
Proof.
  intros Hk. pose proof (Forall_plain_name _ Hk) as (Hslash & _ & Hfilter).
  assert (Hparts : filter (fun seg => seg <> "" /\ seg <> ".")
                     (split_on "/" (join_slash k)) = k).
  { destruct k as [|a k]; [reflexivity|].
    rewrite split_join_slash by (assumption || discriminate). exact Hfilter. }
  split.
  - unfold Path_of_string. destruct b.
    + change ("/" +:+ join_slash k) with (String "/" (join_slash k)).
      cbn [split_on]. rewrite Ascii.eqb_refl.
      rewrite filter_cons_False by (intros [Hn _]; now apply Hn).
      now rewrite Hparts.
    + change ("" +:+ join_slash k) with (join_slash k). rewrite Hparts. f_equal.
      destruct k as [|a k]; [reflexivity|].
      apply Forall_inv in Hk as (Ha & _ & _ & Hs & _).
      destruct a as [|x a]; [congruence|].
      cbn [char_in] in Hs. apply orb_false_elim in Hs as [Hx _].
      destruct k; exact Hx.
  - intros Hne. destruct b; [reflexivity|].
    destruct k as [|a k]; [congruence|].
    apply Forall_inv in Hk as (Ha & _ & _ & Hs & _).
    destruct a as [|x a]; [congruence|].
    cbn [char_in] in Hs. apply orb_false_elim in Hs as [Hx _].
    destruct k; exact Hx.
Qed.

(** *** [name_create_log] *)

Lemma extract_iter_depends_on_meta (a b : Object) :
  _problem_meta a = _problem_meta b -> extract_iter a = extract_iter b.
Proof.
  intros E. unfold extract_iter, getattr_problem_meta. now rewrite E.
Qed.

Lemma extract_iter_returns (component : Object) :
  _problem_meta component <> Some None ->
  exists r, extract_iter component = inr r.
Proof.
  unfold extract_iter, getattr_problem_meta, contains_model_ref, getitem_model_ref.
  destruct (_problem_meta component) as [[pm|]|]; cbn; [|congruence|eauto].
  intros _. destruct (model_ref pm) as [model|]; cbn; [|eauto].
  destruct model as [[[n|]]|]; cbn; eauto.
Qed.

Lemma extract_iter_before_setup (component : Object) :
  _problem_meta component = Some None ->
  extract_iter component
  = inl (TypeError "argument of type 'NoneType' is not iterable").
Proof. intros E. unfold extract_iter, getattr_problem_meta. now rewrite E. Qed.

Lemma logfile_name_not_empty (component : Object) (s : string) :
  logfile_name component s <> "".
Proof. destruct s; discriminate. Qed.

Lemma logfile_names_differ (component : Object) :
  logfile_name component "stdout" <> logfile_name component "stderr".
Proof. discriminate. Qed.

Lemma logfile_name_plain (component : Object) (s : string) :
  s = "stdout" \/ s = "stderr" ->
  char_in "/" (logfile_name component s) = false /\
  logfile_name component s <> "" /\ logfile_name component s <> ".".
Proof.
  intros Hs. split; [|split].
  - apply char_in_logfile_name; try reflexivity; try discriminate.
    destruct Hs as [->| ->]; reflexivity.
  - apply logfile_name_not_empty.
  - destruct Hs as [->| ->]; discriminate.
Qed.

Lemma logfile_suffix_no_percent (component : Object) :
  char_in "%" (logfile_name component "") = false.
Proof. apply char_in_logfile_name; try reflexivity; discriminate. Qed.

Lemma Path_join_snoc (base : Path) (segments : list string) (name : string) :
  name <> "" ->
  Path_join base (segments ++ [name])
  = mkPath (is_absolute (Path_join base segments))
      (parts (Path_join base segments) ++ [name]).
Proof.
  intros Hne. unfold Path_join. cbn [is_absolute parts]. f_equal.
  rewrite filter_app, app_assoc. f_equal.
  now rewrite filter_cons_True, filter_nil.
Qed.

Lemma parent_snoc (b : bool) (k : list string) (name : string) :
  parent (mkPath b (k ++ [name])) = mkPath b k.
Proof. unfold parent. cbn [is_absolute parts]. now rewrite removelast_last. Qed.

Lemma resolve_snoc (w : World) (b : bool) (k : list string) (name : string) :
  resolve w (mkPath b (k ++ [name])) = resolve w (mkPath b k) ++ [name].
Proof. unfold resolve. cbn [is_absolute parts]. destruct b; [reflexivity|apply app_assoc]. Qed.

Lemma path_eta (p : Path) : mkPath (is_absolute p) (parts p) = p.
Proof. now destruct p. Qed.

Lemma logs_location_parts (component : Object) (dir_reports : Path) :
  parts (logs_location component dir_reports) <> [].
Proof.
  unfold logs_location, Path_join. cbn [parts app].
  rewrite filter_cons_True by discriminate.
  destruct (parts (parent dir_reports)); discriminate.
Qed.

(** The template as a string: the location of the logs, a separator, and
    the file name that starts with [%s]. *)
Lemma template_posix (component : Object) (dir_reports : Path) :
  as_posix (Path_join (logs_location component dir_reports)
              [logfile_name component "%s"])
  = ((if is_absolute (logs_location component dir_reports) then "/" else "")
     +:+ join_slash (parts (logs_location component dir_reports)))
    +:+ "/%s" +:+ logfile_name component "".
Proof.
  etrans; [|exact (as_posix_snoc _ _ (logfile_name component "%s")
                      (logs_location_parts component dir_reports))].
  reflexivity.
Qed.

(** The two paths the template gives lie in one directory, and the
    directory is the same for any rank. *)
Lemma logfile_paths_returns (self : Object) (dir : Path) (pout perr : Path) :
  logfile_paths self dir = inr (pout, perr) ->
  exists b D,
    pout = mkPath b (D ++ [logfile_name self "stdout"]) /\
    perr = mkPath b (D ++ [logfile_name self "stderr"]) /\
    forall self',
      pathname self' = pathname self -> _problem_meta self' = _problem_meta self ->
      logfile_paths self' dir
      = inr (mkPath b (D ++ [logfile_name self' "stdout"]),
             mkPath b (D ++ [logfile_name self' "stderr"])).
Proof.
  unfold logfile_paths. rewrite template_posix. unfold percent_format. cbv zeta.
  destruct (percent_go Text spec0 (Some "stdout") _) as [e|r] eqn:Hout;
    [discriminate|].
  destruct (percent_go_prefix _ _ _ _ _ _ Hout) as [P' HP'].
  assert (Hpaths : forall self',
    pathname self' = pathname self -> _problem_meta self' = _problem_meta self ->
    logfile_paths self' dir
    = inr (mkPath (is_absolute (Path_of_string (P' +:+ "/")))
             (parts (Path_of_string P') ++ [logfile_name self' "stdout"]),
           mkPath (is_absolute (Path_of_string (P' +:+ "/")))
             (parts (Path_of_string P') ++ [logfile_name self' "stderr"]))).
  { intros self' Hname Hmeta.
    assert (Hloc : logs_location self' dir = logs_location self dir)
      by (unfold logs_location;
          now rewrite (extract_iter_depends_on_meta self' self Hmeta), Hname).
    unfold logfile_paths. rewrite template_posix, Hloc. unfold percent_format.
    cbv zeta. rewrite !HP' by apply logfile_suffix_no_percent.
    cbn [and_then]. f_equal. f_equal.
    - apply (Path_of_string_snoc P' (logfile_name self' "stdout"));
        apply logfile_name_plain; now left.
    - apply (Path_of_string_snoc P' (logfile_name self' "stderr"));
        apply logfile_name_plain; now right. }
  intros Hrun. exists (is_absolute (Path_of_string (P' +:+ "/"))),
    (parts (Path_of_string P')).
  pose proof (Hpaths self eq_refl eq_refl) as Hself.
  unfold logfile_paths in Hself. rewrite template_posix in Hself.
  unfold percent_format in Hself. cbv zeta in Hself. rewrite Hout in Hself.
  rewrite Hself in Hrun. injection Hrun as <- <-.
  split; [reflexivity|]. split; [reflexivity|exact Hpaths].
Qed.

(** When every part of the location is a plain name, the directory is the
    location of the logs. *)
Lemma logfile_paths_plain (self : Object) (dir : Path) :
  plain_location self dir ->
  logfile_paths self dir
  = inr (mkPath (is_absolute (logs_location self dir))
           (parts (logs_location self dir) ++ [logfile_name self "stdout"]),
         mkPath (is_absolute (logs_location self dir))
           (parts (logs_location self dir) ++ [logfile_name self "stderr"])).
Proof.
  intros Hplain. unfold plain_location in Hplain.
  pose proof (Forall_plain_name _ Hplain) as (_ & Hpercent & _).
  destruct (Path_of_string_as_posix (is_absolute (logs_location self dir)) _ Hplain)
    as [Hparse Habs].
  specialize (Habs (logs_location_parts self dir)).
  unfold logfile_paths. rewrite template_posix. unfold percent_format. cbv zeta.
  rewrite !percent_go_plain.
  - cbn [and_then]. f_equal. f_equal.
    + rewrite (Path_of_string_snoc _ (logfile_name self "stdout"));
        [|apply logfile_name_plain; now left..].
      now rewrite Hparse, Habs.
    + rewrite (Path_of_string_snoc _ (logfile_name self "stderr"));
        [|apply logfile_name_plain; now right..].
      now rewrite Hparse, Habs.
  - rewrite char_in_app, char_in_join_slash by (assumption || discriminate).
    now destruct (is_absolute _).
  - apply logfile_suffix_no_percent.
  - rewrite char_in_app, char_in_join_slash by (assumption || discriminate).
    now destruct (is_absolute _).
  - apply logfile_suffix_no_percent.
Qed.

(** [name_create_log] on a component of a problem with a reports
    directory: the two paths, then the clean location, then the absolute
    paths. *)
Lemma name_create_log_unfold (self : Object) (iter0 : option Z) (w : World)
    (pm : ProblemMeta) (dir : Path) :
  is_Component self = true ->
  _problem_meta self = Some (Some pm) -> reports_dir pm = Some dir ->
  name_create_log self iter0 w
  = match logfile_paths self dir with
    | inl e => (inl e, w)
    | inr (pout, perr) =>
        match
          try_except (Path_mkdir (parent pout) true false)
            (fun e =>
               match e with
               | FileExistsError =>
                   Some (rmtree_ignore_errors (parent pout) ;;
                         Path_mkdir (parent pout) true true)
               | _ => None
               end) w
        with
        | (inl e, w0) => (inl e, w0)
        | (inr _, w0) =>
            (inr (mkPath true (resolve w0 pout), mkPath true (resolve w0 perr)), w0)
        end
    end.
Proof.
  intros Hcomp Hpm Hdir. unfold name_create_log. rewrite Hcomp. cbn [negb].
  unfold bind at 1. unfold lift at 1.
  destruct (extract_iter_returns self) as [it Hit]; [congruence|]. rewrite Hit.
  unfold bind at 1. unfold lift at 1. unfold getattr_problem_meta. rewrite Hpm.
  unfold bind at 1. unfold lift at 1. unfold getitem_reports_dir. rewrite Hdir.
  assert (Hsegs :
    Path_join (parent dir)
      (match it with
       | Some i => ["logs"] ++ ["iter_" +:+ format_0d 4 i]
       | None => ["logs"]
       end ++ split_on "."%char (pathname self) ++
       ["%s_rank" +:+ format_0d 3 (Z.of_nat (comm_rank self)) +:+ ".txt"])
    = Path_join (logs_location self dir) [logfile_name self "%s"]).
  { change ("%s_rank" +:+ format_0d 3 (Z.of_nat (comm_rank self)) +:+ ".txt")
      with (logfile_name self "%s").
    unfold logs_location, Path_join. cbn [is_absolute parts]. rewrite Hit. f_equal.
    rewrite <- app_assoc. f_equal. rewrite <- filter_app. f_equal.
    destruct it; cbn [app]; now rewrite <- ?app_assoc. }
  cbv beta zeta. rewrite Hsegs. unfold logfile_paths. cbv zeta.
  unfold bind at 1. unfold lift at 1.
  destruct (percent_format _ "stdout") as [e|so]; [reflexivity|].
  unfold bind at 1. unfold lift at 1.
  destruct (percent_format _ "stderr") as [e|se]; [reflexivity|].
  cbn [and_then]. unfold bind at 1.
  destruct (try_except _ _ w) as [[e|[]] w0]; reflexivity.
Qed.

(** A call was made on a component of a problem with a reports
    directory, or it raised before it reached the file system. *)
Lemma name_create_log_inv (self : Object) (iter0 : option Z) (w w1 : World)
    (r : exn + Path * Path) :
  name_create_log self iter0 w = (r, w1) ->
  (exists pm dir, is_Component self = true /\
     _problem_meta self = Some (Some pm) /\ reports_dir pm = Some dir) \/
  (w1 = w /\ (exists e, r = inl e) /\
   forall pm dir, is_Component self = true ->
     _problem_meta self = Some (Some pm) -> reports_dir pm = Some dir -> False).
Proof.
  intros Hrun. unfold name_create_log in Hrun.
  destruct (is_Component self) eqn:Hcomp; cbn [negb] in Hrun.
  2: { injection Hrun as <- <-. right. split; [reflexivity|].
       split; [eauto|]. intros; discriminate. }
  unfold bind at 1 in Hrun. unfold lift at 1 in Hrun.
  destruct (_problem_meta self) as [[pm|]|] eqn:Hpm.
  - destruct (reports_dir pm) as [dir|] eqn:Hdir; [left; eauto|].
    destruct (extract_iter_returns self) as [it Hit]; [congruence|].
    rewrite Hit in Hrun.
    unfold bind at 1 in Hrun. unfold lift at 1 in Hrun.
    unfold getattr_problem_meta in Hrun. rewrite Hpm in Hrun.
    unfold bind at 1 in Hrun. unfold lift at 1 in Hrun.
    unfold getitem_reports_dir in Hrun. rewrite Hdir in Hrun.
    injection Hrun as <- <-. right. split; [reflexivity|]. split; [eauto|].
    intros pm' dir' _ [= <-] Hdir'. congruence.
  - rewrite (extract_iter_before_setup self Hpm) in Hrun.
    injection Hrun as <- <-. right. split; [reflexivity|]. split; [eauto|].
    intros; discriminate.
  - destruct (extract_iter_returns self) as [it Hit]; [congruence|].
    rewrite Hit in Hrun.
    unfold bind at 1 in Hrun. unfold lift at 1 in Hrun.
    unfold getattr_problem_meta in Hrun. rewrite Hpm in Hrun.
    injection Hrun as <- <-. right. split; [reflexivity|]. split; [eauto|].
    intros; discriminate.
Qed.

Lemma name_create_log_spec (self : Object) (iter0 : option Z) (w w1 : World)
    (r : exn + Path * Path) :
  name_create_log self iter0 w = (r, w1) ->
  fs_wf (fs w) ->
  same_process w w1 /\
  (forall out err, r = inr (out, err) ->
     exists pm dir b D,
       is_Component self = true /\
       _problem_meta self = Some (Some pm) /\ reports_dir pm = Some dir /\
       logfile_paths self dir
       = inr (mkPath b (D ++ [logfile_name self "stdout"]),
              mkPath b (D ++ [logfile_name self "stderr"])) /\
       out = mkPath true (resolve w (mkPath b D) ++ [logfile_name self "stdout"]) /\
       err = mkPath true (resolve w (mkPath b D) ++ [logfile_name self "stderr"]) /\
       fresh_dir (fs w1) (resolve w (mkPath b D))) /\
  (forall pm dir b D perr,
     is_Component self = true ->
     _problem_meta self = Some (Some pm) -> reports_dir pm = Some dir ->
     logfile_paths self dir
     = inr (mkPath b (D ++ [logfile_name self "stdout"]), perr) ->
     no_file_on_path (fs w) (resolve w (mkPath b D)) ->
     exists out err, r = inr (out, err)).
Proof.
  intros Hrun Hwf.
  destruct (name_create_log_inv _ _ _ _ _ Hrun)
    as [(pm & dir & Hcomp & Hpm & Hdir)|(-> & (e & ->) & Hnone)].
  2: { split; [apply same_process_refl|]. split; [discriminate|].
       intros pm dir b D perr Hcomp Hpm Hdir _ _.
       destruct (Hnone pm dir Hcomp Hpm Hdir). }
  assert (Hsame_dir : forall pm' dir',
            _problem_meta self = Some (Some pm') -> reports_dir pm' = Some dir' ->
            dir' = dir).
  { intros pm' dir' Hpm' Hdir'. congruence. }
  rewrite (name_create_log_unfold _ _ _ _ _ Hcomp Hpm Hdir) in Hrun.
  destruct (logfile_paths self dir) as [e|[pout perr]] eqn:Hpaths.
  { injection Hrun as <- <-. split; [apply same_process_refl|].
    split; [discriminate|].
    intros pm' dir' b D perr _ Hpm' Hdir' Hpaths' _.
    rewrite (Hsame_dir _ _ Hpm' Hdir') in Hpaths'. congruence. }
  destruct (logfile_paths_returns _ _ _ _ Hpaths) as (b & D & -> & -> & _).
  rewrite parent_snoc in Hrun.
  destruct (try_except _ _ w) as [[e|[]] w0] eqn:Hclean.
  - injection Hrun as <- <-.
    apply clean_location in Hclean as (Hsame & _ & Hsucceeds); [|assumption].
    split; [exact Hsame|]. split; [discriminate|].
    intros pm' dir' b' D' perr _ Hpm' Hdir' Hpaths' Hnf.
    rewrite (Hsame_dir _ _ Hpm' Hdir') in Hpaths'.
    rewrite Hpaths in Hpaths'. injection Hpaths' as -> HD _.
    apply app_inj_tail in HD as [-> _].
    now apply Hsucceeds in Hnf.
  - apply clean_location in Hclean as (Hsame & Hfresh & _); [|assumption].
    pose proof (f_equal fst Hrun) as Hr. pose proof (f_equal snd Hrun) as Hw.
    cbn [fst snd] in Hr, Hw. subst r w1. clear Hrun.
    rewrite !resolve_snoc, (resolve_same_process w w0) by assumption.
    split; [exact Hsame|]. split.
    + intros out err [= <- <-]. exists pm, dir, b, D. auto 10.
    + intros. eauto.
Qed.

(** The paths of a call that returns: two files of one directory, which
    is there and empty. *)
Lemma name_create_log_returns (self : Object) (iter0 : option Z) (w w1 : World)
    (out err : Path) :
  name_create_log self iter0 w = (inr (out, err), w1) ->
  fs_wf (fs w) ->
  exists d,
    out = mkPath true (d ++ [logfile_name self "stdout"]) /\
    err = mkPath true (d ++ [logfile_name self "stderr"]) /\
    fresh_dir (fs w1) d.
Proof.
  intros Hrun Hwf.
  destruct (name_create_log_spec _ _ _ _ _ Hrun Hwf) as (_ & Hpaths & _).
  destruct (Hpaths out err eq_refl) as (pm & dir & b & D & _ & _ & _ & _ & -> & -> & Hf).
  eauto.
Qed.

(** *** The wrapper *)

Lemma capture_body_eval {Args R : Type} (compute_func : Object -> Args -> M World R)
    (self : Object) (args : Args) (d : list string) (no ne : string) (w1 : World) :
  fresh_dir (fs w1) d -> no <> ne ->
  try_except
    (with_ (open_append (mkPath true (d ++ [no]))) close (fun stdout_file =>
     with_ (open_append (mkPath true (d ++ [ne]))) close (fun stderr_file =>
     with_ (redirect_stdout_enter stdout_file) redirect_stdout_exit (fun _ =>
     with_ (redirect_stderr_enter stderr_file) redirect_stderr_exit (fun _ =>
       compute_func self args)))))
    (fun e => Some (raise e)) w1
  = (fst (compute_func self args
            (redirected (mkPath true (d ++ [no])) (mkPath true (d ++ [ne])) w1)),
     restored w1 (mkPath true (d ++ [no])) (mkPath true (d ++ [ne]))
       (snd (compute_func self args
               (redirected (mkPath true (d ++ [no])) (mkPath true (d ++ [ne])) w1)))).
Proof.
  intros [Hdir Hbelow] Hnames.
  assert (Hko : d ++ [no] <> d) by (intros E; apply (f_equal length) in E;
                                     rewrite length_app in E; simpl in E; lia).
  assert (Hke : d ++ [ne] <> d) by (intros E; apply (f_equal length) in E;
                                     rewrite length_app in E; simpl in E; lia).
  assert (Hoe : d ++ [ne] <> d ++ [no])
    by (intros E; apply app_inv_head in E; congruence).
  assert (Hnil : forall a : string, d ++ [a] <> []) by (intros a; destruct d; discriminate).
  assert (Hout : lookup_node (fs w1) (d ++ [no]) = None).
  { rewrite lookup_node_cons by apply Hnil.
    apply Hbelow; [now apply prefix_app_r|assumption]. }
  assert (Herr : lookup_node (fs w1) (d ++ [ne]) = None).
  { rewrite lookup_node_cons by apply Hnil.
    apply Hbelow; [now apply prefix_app_r|assumption]. }
  unfold try_except, with_ at 1, open_append at 1, resolve.
  cbn [is_absolute parts]. rewrite Hout, removelast_last, Hdir.
  unfold with_ at 1, open_append at 1, resolve.
  cbn [is_absolute parts fs set_fs set_open_files].
  rewrite (lookup_node_insert_ne _ _ _ _ Hoe), Herr, removelast_last.
  rewrite (lookup_node_insert_ne _ _ _ _ (not_eq_sym Hko)), Hdir.
  unfold with_, redirect_stdout_enter, redirect_stderr_enter,
    redirect_stdout_exit, redirect_stderr_exit, close.
  cbn [sys_stdout sys_stderr set_sys_stdout set_sys_stderr set_fs set_open_files
       fs cwd open_files].
  unfold redirected, restored. cbn [parts].
  destruct (compute_func self args _) as [[e|a] w3]; reflexivity.
Qed.


(** *** The checks are sound *)

Lemma prefix_as_take (p k : list string) :
  p `prefix_of` k -> p = take (length p) k.
Proof. intros [t ->]. now rewrite take_app_length. Qed.

Lemma fs_wf_check_sound (m : gmap (list string) node) :
  fs_wf_check m = true -> fs_wf m.
Proof.
  unfold fs_wf_check. rewrite forallb_forall. intros Hc q n p Hq Hp Hne.
  apply elem_of_map_to_list, list_elem_of_In in Hq.
  specialize (Hc _ Hq). cbn [fst] in Hc. rewrite forallb_forall in Hc.
  assert (Hlen : length p < length q).
  { pose proof (prefix_length _ _ Hp) as Hle.
    destruct (decide (length q <= length p)) as [Hge|]; [|lia].
    exfalso. apply Hne. now apply prefix_length_eq. }
  specialize (Hc (length p)). rewrite <- (prefix_as_take p q Hp) in Hc.
  destruct (lookup_node m p) as [[|c]|]; [reflexivity|..];
    (exfalso; assert (false = true) as Hf by (apply Hc, in_seq; lia); discriminate Hf).
Qed.


End LoggingFacts.

(** ** The wrapper on a component with stale logs *)

Module LoggingExamples.

Import Logging Examples LoggingFacts.

#[local] Open Scope list_scope.
#[local] Open Scope Z_scope.

Example format_0d_examples :
  format_0d 4 7 = "0007" /\ format_0d 4 (-1) = "-001" /\
  format_0d 4 12345 = "12345" /\ format_0d 3 0 = "000".
Proof. repeat split. Qed.

Example split_on_examples :
  split_on "."%char "farm.eagle" = ["farm"; "eagle"] /\
  split_on "."%char "" = [""] /\
  split_on "."%char "a..b" = ["a"; ""; "b"].
Proof. repeat split. Qed.

Example extract_iter_examples :
  extract_iter component_logged = inr (Some 7%Z) /\
  extract_iter {| is_Component := false; _problem_meta := None;
                  pathname := ""; comm_rank := 0%nat |} = inr None.
Proof. split; reflexivity. Qed.


Example percent_format_examples :
  percent_format "logs/%s_rank000.txt" "stdout" = inr "logs/stdout_rank000.txt" /\
  percent_format "/data/50%%/logs/%s_rank000.txt" "stdout"
    = inr "/data/50%/logs/stdout_rank000.txt" /\
  percent_format "/data/run_%s/logs/%s_rank000.txt" "stdout"
    = inl (TypeError "not enough arguments for format string") /\
  percent_format "/data/run_%d/logs/%s_rank000.txt" "stdout"
    = inl (TypeError "a real number is required, not str") /\
  percent_format "/data/100%/logs/%s_rank000.txt" "stdout"
    = inl (ValueError "unsupported format character") /\
  percent_format "%8s|" "stdout" = inr "  stdout|" /\
  percent_format "%-8.3s|" "stdout" = inr "std     |" /\
  percent_format "%r" "stdout" = inr "'stdout'" /\
  percent_format "100%" "stdout" = inl (ValueError "incomplete format") /\
  percent_format "logs" "stdout"
    = inl (TypeError "not all arguments converted during string formatting").
Proof. repeat split. Qed.

Example path_string_examples :
  as_posix (mkPath true ["data"; "logs"]) = "/data/logs" /\
  as_posix (mkPath false ["out"; "logs"]) = "out/logs" /\
  as_posix (mkPath false []) = "." /\
  Path_of_string "/data//logs/./x" = mkPath true ["data"; "logs"; "x"] /\
  Path_of_string "out/logs" = mkPath false ["out"; "logs"].
Proof. repeat split. Qed.

(** A conversion specifier in the name of a directory above the reports:
    the operator raises and nothing is made.  A doubled percent sign: the
    logs go to the directory with one percent sign. *)
Example name_create_log_percent :
  name_create_log component_percent_s None world_stale
  = (inl (TypeError "not enough arguments for format string"), world_stale) /\
  fst (name_create_log component_percent_percent None world_stale)
  = inr (mkPath true ["data"; "50%"; "logs"; "eagle"; "stdout_rank000.txt"],
         mkPath true ["data"; "50%"; "logs"; "eagle"; "stderr_rank000.txt"]).
Proof. split; vm_compute; reflexivity. Qed.

Example name_create_log_paths :
  fst (name_create_log component_logged None world_stale)
  = inr (mkPath true (stale_log_dir ++ ["stdout_rank002.txt"]),
         mkPath true (stale_log_dir ++ ["stderr_rank002.txt"])).
Proof. vm_compute. reflexivity. Qed.

Example name_create_log_removes_stale_file :
  fs world_stale !! (stale_log_dir ++ ["stdout_rank002.txt"]) = Some (File "old output") /\
  fs (snd (name_create_log component_logged None world_stale))
    !! (stale_log_dir ++ ["stdout_rank002.txt"]) = None.
Proof. split; vm_compute; reflexivity. Qed.

Example name_create_log_needs_a_component :
  fst (name_create_log {| is_Component := false; _problem_meta := None;
                          pathname := ""; comm_rank := 0%nat |} None world_stale)
  = inl (TypeError "Expected openmdao.core.component.Component").
Proof. reflexivity. Qed.

Example capture_returns_the_value :
  fst (component_log_capture returning_func None component_logged tt world_stale)
  = inr 42%nat.
Proof. vm_compute. reflexivity. Qed.

Lemma world_stale_wf : fs_wf (fs world_stale).
Proof. apply fs_wf_check_sound. vm_compute. reflexivity. Qed.

Lemma world_stale_log_location :
  resolve world_stale (logs_location component_logged (mkPath false ["out"; "reports"]))
  = stale_log_dir.
Proof. vm_compute. reflexivity. Qed.


Lemma component_logged_plain :
  plain_location component_logged (mkPath false ["out"; "reports"]).
Proof.
  change (Forall plain_name ["out"; "logs"; "iter_0007"; "farm"; "eagle"]).
  repeat constructor; discriminate.
Qed.


End LoggingExamples.

(** ** More about [ard/eco/eagle_density.py] *)

Module EagleDensityMore.

Import EagleDensity EagleDensityFacts.

#[local] Open Scope list_scope.

Section More.

Context {F : Type} `{Float64 F} `{Fitpack F}.

(** *** What a returning call has written *)

Lemma compute_returns_inv (s s' : Self) (inputs : gmap string (list F))
    (outputs out : gmap string (list (list (list F)))) :
  compute inputs outputs s = (inr out, s') ->
  exists density, out = <["eagle_normalized_density" := density]> outputs.
Proof.
  unfold compute, getitem.
  destruct (inputs !! "x_turbines") as [xs|]; [|discriminate].
  destruct (inputs !! "y_turbines") as [ys|]; [|discriminate].
  unfold bind at 1. unfold ret at 1. unfold bind at 1. unfold ret at 1.
  unfold bind at 1.
  destruct (mapM _ (zip xs ys) s) as [[e|d] s1]; [discriminate|].
  unfold ret. intros [= <- <-]. eauto.
Qed.

Lemma compute_partials_returns_inv (s s' : Self) (inputs : gmap string (list F))
    (partials p : gmap (string * string) (list (list F))) :
  compute_partials inputs partials s = (inr p, s') ->
  exists Jx Jy,
    p = <[("eagle_normalized_density", "y_turbines") := Jy]>
          (<[("eagle_normalized_density", "x_turbines") := Jx]> partials).
Proof.
  unfold compute_partials, getitem.
  destruct (inputs !! "x_turbines") as [xs|]; [|discriminate].
  destruct (inputs !! "y_turbines") as [ys|]; [|discriminate].
  unfold bind, ret, getattr, lift.
  destruct (eagle_density_function s) as [spl|] eqn:Hs; [|discriminate].
  destruct (ev spl xs ys 1 0); [discriminate|].
  rewrite Hs. destruct (ev spl xs ys 0 1); [discriminate|].
  intros [= <- <-]. eauto.
Qed.

(** X1. [compute] writes the key ["eagle_normalized_density"] and no other:
    every other entry of [outputs] is as it was, and what was stored under
    the key before the call has no influence on what the call returns. *)
Theorem compute_writes_only_the_density (s s' : Self)
    (inputs : gmap string (list F))
    (outputs out : gmap string (list (list (list F))))
    (old : list (list (list F))) :
  compute inputs outputs s = (inr out, s') ->
  is_Some (out !! "eagle_normalized_density") /\
  (forall k, k <> "eagle_normalized_density" -> out !! k = outputs !! k) /\
  compute inputs (<["eagle_normalized_density" := old]> outputs) s = (inr out, s').
Proof.
  intros Hc. destruct (compute_returns_inv _ _ _ _ _ Hc) as [density ->].
  split; [rewrite lookup_insert_eq; eauto|].
  split; [intros k Hk; now rewrite lookup_insert_ne|].
  revert Hc. unfold compute, getitem.
  destruct (inputs !! "x_turbines") as [xs|]; [|discriminate].
  destruct (inputs !! "y_turbines") as [ys|]; [|discriminate].
  unfold bind, ret.
  destruct (mapM _ (zip xs ys) s) as [[e|d] s1]; [discriminate|].
  intros [= Hd <-]. now rewrite insert_insert_eq, Hd.
Qed.

(** X2. [compute_partials] writes the two keys
    [("eagle_normalized_density", "x_turbines")] and
    [("eagle_normalized_density", "y_turbines")] and no other: every other
    entry of [partials] is as it was. *)
Theorem compute_partials_writes_two_keys (s s' : Self)
    (inputs : gmap string (list F))
    (partials p : gmap (string * string) (list (list F))) :
  compute_partials inputs partials s = (inr p, s') ->
  is_Some (p !! ("eagle_normalized_density", "x_turbines")) /\
  is_Some (p !! ("eagle_normalized_density", "y_turbines")) /\
  (forall key, key <> ("eagle_normalized_density", "x_turbines") ->
               key <> ("eagle_normalized_density", "y_turbines") ->
               p !! key = partials !! key).
Proof.
  intros Hc. destruct (compute_partials_returns_inv _ _ _ _ _ Hc) as (Jx & Jy & ->).
  split; [rewrite lookup_insert_ne by discriminate; rewrite lookup_insert_eq; eauto|].
  split; [rewrite lookup_insert_eq; eauto|].
  intros key Hx Hy. now rewrite !lookup_insert_ne.
Qed.

(** X3. On an empty batch [compute] writes an empty density list, also on
    a component that was never set up (the interpolant is read once per
    point, so it is not read at all); and when both arrays are empty
    [compute_partials] writes two empty blocks, whatever the degrees of the
    spline. *)
Theorem empty_batch (s : Self) (inputs : gmap string (list F))
    (outputs : gmap string (list (list (list F))))
    (partials : gmap (string * string) (list (list F))) (xs ys : list F) :
  inputs !! "x_turbines" = Some xs ->
  inputs !! "y_turbines" = Some ys ->
  xs = [] \/ ys = [] ->
  compute inputs outputs s = (inr (<["eagle_normalized_density" := []]> outputs), s) /\
  (xs = [] -> ys = [] ->
   forall spl, eagle_density_function s = Some spl ->
     compute_partials inputs partials s
     = (inr (<[("eagle_normalized_density", "y_turbines") := []]>
              (<[("eagle_normalized_density", "x_turbines") := []]> partials)), s)).
Proof.
  intros Hx Hy Hempty. split.
  - unfold compute, getitem. rewrite Hx, Hy.
    assert (Hz : zip xs ys = []) by (destruct Hempty as [-> | ->]; [|destruct xs]; reflexivity).
    unfold bind at 1. unfold ret at 1. unfold bind at 1. unfold ret at 1.
    unfold bind at 1. now rewrite Hz.
  - intros -> -> spl Hs. unfold compute_partials, getitem. rewrite Hx, Hy.
    unfold bind, ret, getattr, lift. rewrite Hs. cbn. now rewrite Hs.
Qed.

(** X4. What the two methods raise.  A missing input raises [KeyError]
    with its name, ["x_turbines"] being read first; on a component without
    an interpolant [compute_partials] raises [AttributeError], and so does
    [compute] unless one of the arrays is empty.  In each case the component
    is unchanged. *)
Theorem evaluation_errors (s : Self) (inputs : gmap string (list F))
    (outputs : gmap string (list (list (list F))))
    (partials : gmap (string * string) (list (list F))) :
  (inputs !! "x_turbines" = None ->
   compute inputs outputs s = (inl (KeyError "x_turbines"), s) /\
   compute_partials inputs partials s = (inl (KeyError "x_turbines"), s)) /\
  (forall xs, inputs !! "x_turbines" = Some xs -> inputs !! "y_turbines" = None ->
   compute inputs outputs s = (inl (KeyError "y_turbines"), s) /\
   compute_partials inputs partials s = (inl (KeyError "y_turbines"), s)) /\
  (forall xs ys,
   inputs !! "x_turbines" = Some xs -> inputs !! "y_turbines" = Some ys ->
   eagle_density_function s = None ->
   compute_partials inputs partials s
     = (inl (AttributeError "eagle_density_function"), s) /\
   (xs <> [] -> ys <> [] ->
    compute inputs outputs s = (inl (AttributeError "eagle_density_function"), s))).
Proof.
  split; [|split].
  - intros Hx. unfold compute, compute_partials, getitem. now rewrite Hx.
  - intros xs Hx Hy. unfold compute, compute_partials, getitem. now rewrite Hx, Hy.
  - intros xs ys Hx Hy Hs. split.
    + unfold compute_partials, getitem. rewrite Hx, Hy.
      unfold bind, ret, getattr. now rewrite Hs.
    + intros Hxs Hys. unfold compute, getitem. rewrite Hx, Hy.
      destruct xs as [|x xs]; [congruence|]. destruct ys as [|y ys]; [congruence|].
      unfold bind at 1. unfold ret at 1. unfold bind at 1. unfold ret at 1.
      unfold bind at 1. cbn [zip_with mapM]. unfold bind at 1. unfold bind at 1.
      unfold getattr at 1. now rewrite Hs.
Qed.

(** *** Arrays of different lengths in [compute_partials] *)

Lemma broadcast_arrays_accepts (xs ys : list F) :
  (exists p, broadcast_arrays xs ys = inr p) <->
  length xs = length ys \/ length xs = 1 \/ length ys = 1.
Proof.
  unfold broadcast_arrays.
  destruct (Nat.eqb_spec (length xs) (length ys)) as [E|E]; [split; eauto|].
  destruct xs as [|x [|x' xs]], ys as [|y [|y' ys]]; cbn in *;
    (split; [intros [p Hp]; try discriminate Hp; auto | intros; try lia; eauto]).
Qed.

Lemma broadcast_arrays_rejects (xs ys : list F) :
  length xs <> length ys -> length xs <> 1 -> length ys <> 1 ->
  broadcast_arrays xs ys
  = inl (ValueError "shape mismatch: objects cannot be broadcast to a single shape").
Proof.
  intros E Hx Hy. unfold broadcast_arrays.
  destruct (Nat.eqb_spec (length xs) (length ys)) as [E'|_]; [contradiction|].
  destruct xs as [|x [|x' xs]], ys as [|y [|y' ys]]; cbn in *; try lia; reflexivity.
Qed.

Lemma ev_first_derivative_accepts (spl : RectBivariateSpline) (xs ys : list F)
    (dx dy : nat) :
  0 < dx + dy -> dx < fst (degrees spl) -> dy < snd (degrees spl) ->
  forall p, broadcast_arrays xs ys = inr p -> exists v, ev spl xs ys dx dy = inr v.
Proof.
  intros Hd Hx Hy [x y] Hb. unfold ev. rewrite Hb.
  destruct ((length x =? 0) || (length y =? 0)); [eauto|].
  assert (Hor : (0 <? dx) || (0 <? dy) = true).
  { destruct dx; [destruct dy; [lia|]|]; reflexivity. }
  rewrite Hor. apply Nat.ltb_lt in Hx, Hy. rewrite Hx, Hy. eauto.
Qed.

(** X5. On a component that has been set up, [compute_partials] returns
    exactly when the two arrays can be broadcast: they have the same length
    or one of them has length 1.  Otherwise it raises the [ValueError] of
    the broadcast and leaves the component unchanged; so on arrays of
    different lengths, none of length 1, [compute_partials] fails where
    [compute] truncates. *)
Theorem compute_partials_accepts_broadcastable (s0 s : Self)
    (inputs : gmap string (list F))
    (partials : gmap (string * string) (list (list F))) (xs ys : list F) :
  setup s0 = (inr tt, s) ->
  inputs !! "x_turbines" = Some xs ->
  inputs !! "y_turbines" = Some ys ->
  ((exists p, compute_partials inputs partials s = (inr p, s)) <->
   length xs = length ys \/ length xs = 1 \/ length ys = 1) /\
  (length xs <> length ys -> length xs <> 1 -> length ys <> 1 ->
   compute_partials inputs partials s
   = (inl (ValueError "shape mismatch: objects cannot be broadcast to a single shape"),
      s)).
Proof.
  intros Hsetup Hx Hy.
  destruct (setup_inv s0 s Hsetup) as (spl & Hinit & Hs). cbv zeta in Hinit.
  apply init_inv in Hinit as (_ & _ & _ & _ & _ & Hdeg).
  assert (Hrej : length xs <> length ys -> length xs <> 1 -> length ys <> 1 ->
    compute_partials inputs partials s
    = (inl (ValueError "shape mismatch: objects cannot be broadcast to a single shape"),
       s)).
  { intros E H1 H2. unfold compute_partials, getitem. rewrite Hx, Hy.
    unfold bind, ret, getattr, lift. rewrite Hs. unfold ev.
    now rewrite (broadcast_arrays_rejects xs ys E H1 H2). }
  split; [|exact Hrej]. split.
  - intros [p Hp].
    destruct (decide (length xs = length ys)) as [|E]; [auto|].
    destruct (decide (length xs = 1)) as [|H1]; [auto|].
    destruct (decide (length ys = 1)) as [|H2]; [auto|].
    rewrite (Hrej E H1 H2) in Hp. discriminate Hp.
  - intros Hb. apply broadcast_arrays_accepts in Hb as [p Hb].
    destruct (ev_first_derivative_accepts spl xs ys 1 0) with (p := p)
      as [vx Hvx]; [lia|rewrite Hdeg; simpl; lia..|assumption|].
    destruct (ev_first_derivative_accepts spl xs ys 0 1) with (p := p)
      as [vy Hvy]; [lia|rewrite Hdeg; simpl; lia..|assumption|].
    unfold compute_partials, getitem. rewrite Hx, Hy.
    unfold bind, ret, getattr, lift. rewrite Hs, Hvx, Hs, Hvy. eauto.
Qed.

(** *** What [setup] and [setup_partials] leave on the component *)

(** X6. A [setup] that returns has assigned the four attributes, stored
    the interpolant and declared, after the variables already there, the
    inputs [x_turbines] and [y_turbines] and the output
    [eagle_normalized_density], each with [N_turbines] zeros.  When the
    spline constructor raises on the grid of the options, [setup] raises
    that exception with the four attributes assigned, no variable declared
    and no interpolant stored: the spline is built after the options are
    read and before the variables are declared. *)
Theorem setup_effects (s0 : Self) :
  let mo := options_modeling_options s0 in
  let n := layout_N_turbines mo in
  let p := ssrs_presence_density_map mo in
  (forall s, setup s0 = (inr tt, s) ->
     modeling_options s = Some mo /\ windIO s = Some (windIO_plant mo) /\
     N_turbines s = Some n /\ pres s = Some p /\
     is_Some (eagle_density_function s) /\
     map var_name (var_inputs s)
       = map var_name (var_inputs s0) ++ ["x_turbines"; "y_turbines"] /\
     map var_name (var_outputs s)
       = map var_name (var_outputs s0) ++ ["eagle_normalized_density"] /\
     (forall v, v ∈ var_inputs s ++ var_outputs s ->
        v ∈ var_inputs s0 ++ var_outputs s0 \/
        (var_val v = zeros n /\ length (var_val v) = n))) /\
  (forall e,
     RectBivariateSpline_init (pdm_x p) (pdm_y p)
       (pdm_normalized_presence_density p) 3 3 = inl e ->
     exists s,
       setup s0 = (inl e, s) /\
       modeling_options s = Some mo /\ windIO s = Some (windIO_plant mo) /\
       N_turbines s = Some n /\ pres s = Some p /\
       eagle_density_function s = eagle_density_function s0 /\
       var_inputs s = var_inputs s0 /\ var_outputs s = var_outputs s0).
Proof.
  cbv zeta. unfold setup, bind, get, modify, lift, add_input, add_output.
  destruct (RectBivariateSpline_init _ _ _ 3 3) as [e|spl]; cbn.
  - split; [intros s Hs; discriminate Hs|].
    intros e' [= <-]. eexists. split; [reflexivity|]. cbn. auto 10.
  - split; [|intros e He; discriminate He].
    intros s [= <-]. cbn.
    split; [reflexivity|]. split; [reflexivity|]. split; [reflexivity|].
    split; [reflexivity|]. split; [eauto|].
    split; [now rewrite !map_app, <- app_assoc|]. split; [now rewrite map_app|].
    intros v Hv. rewrite !elem_of_app in Hv. rewrite elem_of_app.
    assert (Hz : length (zeros (layout_N_turbines (options_modeling_options s0)))
                 = layout_N_turbines (options_modeling_options s0))
      by apply repeat_length.
    destruct Hv as [[[Hv|Hv]|Hv]|[Hv|Hv]]; auto;
      apply list_elem_of_singleton in Hv; subst v; cbn; auto.
Qed.

(** X7. The blocks [compute_partials] writes are the partial derivatives
    [setup_partials] declares: starting from an empty dictionary, a key
    (of, wrt) is written exactly when [setup_partials] declared it, and each
    is declared with the method "exact". *)
Theorem partials_written_are_those_declared (s0 s s' : Self)
    (inputs : gmap string (list F))
    (p : gmap (string * string) (list (list F))) :
  declared_partials s0 = [] ->
  compute_partials inputs ∅ s = (inr p, s') ->
  forall of_ wrt,
    is_Some (p !! (of_, wrt)) <->
    (of_, wrt, "exact") ∈ declared_partials (snd (setup_partials s0)).
Proof.
  intros Hnone Hc of_ wrt.
  destruct (compute_partials_returns_inv _ _ _ _ _ Hc) as (Jx & Jy & ->).
  unfold setup_partials, bind, declare_partials, modify. cbn. rewrite Hnone. cbn.
  rewrite !elem_of_cons, elem_of_nil.
  destruct (decide ((of_, wrt) = ("eagle_normalized_density", "y_turbines")))
    as [E|Ny].
  { rewrite E, lookup_insert_eq. injection E as -> ->. split; eauto. }
  rewrite lookup_insert_ne by congruence.
  destruct (decide ((of_, wrt) = ("eagle_normalized_density", "x_turbines")))
    as [E|Nx].
  { rewrite E, lookup_insert_eq. injection E as -> ->. split; eauto. }
  rewrite lookup_insert_ne by congruence. rewrite lookup_empty.
  split; [intros [? Hn]; discriminate Hn|].
  intros [E|[E|[]]]; injection E as -> ->; congruence.
Qed.

End More.

End EagleDensityMore.

(** ** More about [ard/utils/logging.py] *)

Module LoggingMore.

Import Logging LoggingFacts.

#[local] Open Scope list_scope.

(** *** [name_create_log], step by step *)

(** X8. When [name_create_log] raises before it reaches the file system.
    It raises [TypeError] on an object that is not a component; on a
    component without the attribute [_problem_meta] it raises
    [AttributeError], although [extract_iter] has just returned [None] for
    it; and it raises [KeyError] when [_problem_meta] has no reports
    directory.  In each case nothing was created or removed, and the wrapper
    of [component_log_capture] raises the same exception without running the
    wrapped method. *)
Theorem name_create_log_early_errors {Args R : Type}
    (compute_func : Object -> Args -> M World R) (iter iter0 : option Z)
    (self : Object) (args : Args) (w : World) :
  (is_Component self = false ->
   name_create_log self iter0 w
     = (inl (TypeError "Expected openmdao.core.component.Component"), w) /\
   component_log_capture compute_func iter self args w
     = (inl (TypeError "Expected openmdao.core.component.Component"), w)) /\
  (is_Component self = true -> _problem_meta self = None ->
   extract_iter self = inr None /\
   name_create_log self iter0 w = (inl (AttributeError "_problem_meta"), w) /\
   component_log_capture compute_func iter self args w
     = (inl (AttributeError "_problem_meta"), w)) /\
  (forall pm, is_Component self = true ->
   _problem_meta self = Some (Some pm) -> reports_dir pm = None ->
   name_create_log self iter0 w = (inl (KeyError "reports_dir"), w) /\
   component_log_capture compute_func iter self args w
     = (inl (KeyError "reports_dir"), w)).
Proof.
  assert (Hwrap : forall e, name_create_log self None w = (inl e, w) ->
            component_log_capture compute_func iter self args w = (inl e, w)).
  { intros e Hn. unfold component_log_capture, bind. now rewrite Hn. }
  assert (H1 : forall it, is_Component self = false ->
            name_create_log self it w
            = (inl (TypeError "Expected openmdao.core.component.Component"), w)).
  { intros it Hc. unfold name_create_log. now rewrite Hc. }
  assert (H2 : forall it, is_Component self = true -> _problem_meta self = None ->
            name_create_log self it w = (inl (AttributeError "_problem_meta"), w)).
  { intros it Hc Hpm. unfold name_create_log. rewrite Hc. cbn [negb].
    unfold bind at 1. unfold lift at 1.
    destruct (extract_iter_returns self) as [r Hr]; [congruence|]. rewrite Hr.
    unfold bind at 1. unfold lift at 1. unfold getattr_problem_meta. now rewrite Hpm. }
  assert (H3 : forall it pm, is_Component self = true ->
            _problem_meta self = Some (Some pm) -> reports_dir pm = None ->
            name_create_log self it w = (inl (KeyError "reports_dir"), w)).
  { intros it pm Hc Hpm Hdir. unfold name_create_log. rewrite Hc. cbn [negb].
    unfold bind at 1. unfold lift at 1.
    destruct (extract_iter_returns self) as [r Hr]; [congruence|]. rewrite Hr.
    unfold bind at 1. unfold lift at 1. unfold getattr_problem_meta. rewrite Hpm.
    unfold bind at 1. unfold lift at 1. unfold getitem_reports_dir. now rewrite Hdir. }
  split; [|split].
  - intros Hc. split; [apply H1|apply Hwrap, H1]; assumption.
  - intros Hc Hpm. split.
    + unfold extract_iter. now rewrite Hpm.
    + split; [apply H2|apply Hwrap, H2]; assumption.
  - intros pm Hc Hpm Hdir. split; [eapply H3|eapply Hwrap, H3]; eassumption.
Qed.

(** *** What a call leaves of the file system *)

Lemma lookup_node_filter_keep (m : gmap (list string) node) (d p : list string) :
  ~ d `prefix_of` p ->
  lookup_node (filter (fun kv : list string * node => ¬ (d `prefix_of` kv.1)) m) p
  = lookup_node m p.
Proof.
  intros Hp. destruct p as [|a p]; [reflexivity|]. cbn [lookup_node].
  destruct (m !! (a :: p)) as [n|] eqn:Hm.
  - now apply map_lookup_filter_Some_2.
  - apply map_lookup_filter_None_2. now left.
Qed.

Lemma fs_wf_filter (m : gmap (list string) node) (d : list string) :
  fs_wf m ->
  fs_wf (filter (fun kv : list string * node => ¬ (d `prefix_of` kv.1)) m).
Proof.
  intros Hwf q n p Hq Hp Hne.
  apply map_lookup_filter_Some in Hq as [Hq Hkeep]. cbn in Hkeep.
  rewrite lookup_node_filter_keep.
  - eapply Hwf; eauto.
  - intros Hd. apply Hkeep. etrans; [exact Hd|exact Hp].
Qed.

Lemma fs_wf_insert_file (m : gmap (list string) node) (k : list string) (c : string) :
  fs_wf m ->
  lookup_node m k = None ->
  lookup_node m (removelast k) = Some Dir ->
  fs_wf (<[k := File c]> m).
Proof.
  intros Hwf Hk Hparent q n p Hq Hp Hne.
  destruct (decide (q = k)) as [->|Hqk].
  - assert (Hpk : p <> k) by assumption.
    rewrite lookup_node_insert_ne by assumption.
    pose proof (prefix_removelast _ _ Hp Hne) as Hp'.
    destruct (decide (p = removelast k)) as [->|Hne']; [assumption|].
    destruct (decide (removelast k = [])) as [Hnil|Hnn].
    + rewrite Hnil in Hp'. apply prefix_nil_inv in Hp'. now subst p.
    + rewrite lookup_node_cons in Hparent by assumption.
      exact (Hwf _ _ _ Hparent Hp' Hne').
  - rewrite lookup_insert_ne in Hq by congruence.
    pose proof (Hwf _ _ _ Hq Hp Hne) as Hdir.
    destruct (decide (p = k)) as [->|Hpk]; [congruence|].
    now rewrite lookup_node_insert_ne.
Qed.

Lemma rmtree_frame (P : Path) (w : World) :
  exists w2, rmtree_ignore_errors P w = (inr tt, w2) /\
    same_process w w2 /\
    (forall q, ~ resolve w P `prefix_of` q -> fs w2 !! q = fs w !! q) /\
    (forall q, fs w2 !! q = fs w !! q \/ fs w2 !! q = None) /\
    (fs_wf (fs w) -> fs_wf (fs w2)).
Proof.
  unfold rmtree_ignore_errors.
  destruct (lookup_node (fs w) (resolve w P)) as [[|c]|] eqn:Hd.
  2, 3: exists w; split; [reflexivity|]; split; [apply same_process_refl|];
        split; [reflexivity|]; split; [now left|auto].
  eexists. split; [reflexivity|]. split; [apply same_process_set_fs|].
  cbn [fs set_fs]. split; [|split].
  - intros q Hq. destruct (fs w !! q) as [n|] eqn:Hm.
    + now apply map_lookup_filter_Some_2.
    + apply map_lookup_filter_None_2. now left.
  - intros q. destruct (filter _ (fs w) !! q) as [n|] eqn:Hq; [|now right].
    left. apply map_lookup_filter_Some in Hq as [Hq _]. now rewrite Hq.
  - apply fs_wf_filter.
Qed.

Lemma grows_location_cleaned (d : list string) (w w1 : World) :
  extends d w w1 -> location_cleaned d w w1.
Proof.
  intros (Hs & Hg & Hwf). split; [exact Hs|]. split; [|split; [|exact Hwf]].
  - intros q _. apply Hg.
  - intros q Hp Hne. left. eapply grows_below; eauto.
Qed.

Lemma clean_location_frame (P : Path) (w w1 : World) (r : exn + unit) :
  try_except (Path_mkdir P true false)
    (fun e =>
       match e with
       | FileExistsError =>
           Some (rmtree_ignore_errors P ;; Path_mkdir P true true)
       | _ => None
       end) w = (r, w1) ->
  location_cleaned (resolve w P) w w1.
Proof.
  unfold try_except, Path_mkdir.
  destruct (Path_mkdir_go (length (resolve w P)) (resolve w P) true false w)
    as [[e|[]] w0] eqn:Hfirst.
  2: { intros [= <- <-]. apply grows_location_cleaned.
       now apply Path_mkdir_go_spec in Hfirst as (He & _). }
  apply Path_mkdir_go_spec in Hfirst as (He0 & _).
  assert (Hother : (inl e, w0) = (r, w1) -> location_cleaned (resolve w P) w w1).
  { intros [= <- <-]. now apply grows_location_cleaned. }
  destruct e; try exact Hother. clear Hother.
  unfold bind. destruct (rmtree_frame P w0) as (w2 & Hrm & Hs2 & Hout & Hshrink & Hwf2).
  rewrite Hrm. unfold Path_mkdir.
  destruct He0 as (Hs0 & Hg0 & Hwf0).
  assert (Hres0 : resolve w0 P = resolve w P) by now apply resolve_same_process.
  assert (Hres2 : resolve w2 P = resolve w P)
    by (rewrite (resolve_same_process w0 w2) by assumption; exact Hres0).
  rewrite Hres2. intros Hsecond.
  apply Path_mkdir_go_spec in Hsecond as ((Hs1 & Hg1 & Hwf1) & _).
  rewrite Hres0 in Hout.
  split; [|split; [|split]].
  - eapply same_process_trans; [exact Hs0|]. eapply same_process_trans; eassumption.
  - intros q Hq. specialize (Hout q Hq).
    destruct (Hg0 q) as [E0|(N0 & D0 & P0)], (Hg1 q) as [E1|(N1 & D1 & P1)].
    + left. congruence.
    + right. repeat split; [congruence|assumption..].
    + right. repeat split; [assumption|congruence|assumption].
    + congruence.
  - intros q Hp Hne.
    rewrite (grows_below _ q _ _ Hg1 Hp Hne).
    rewrite <- (grows_below _ q _ _ Hg0 Hp Hne). apply Hshrink.
  - auto.
Qed.

Lemma resolve_Path_join (w : World) (base : Path) (segments : list string) :
  resolve w (Path_join base segments)
  = resolve w base ++ filter (fun seg => seg <> "") segments.
Proof.
  unfold resolve, Path_join. cbn [is_absolute parts].
  destruct (is_absolute base); [reflexivity|apply app_assoc].
Qed.

Lemma resolve_logs_location (self : Object) (dir : Path) (w : World) (it : option Z) :
  extract_iter self = inr it ->
  resolve w (logs_location self dir)
  = resolve w (parent dir) ++
    "logs" :: match it with
              | Some i => ["iter_" +:+ format_0d 4 i]
              | None => []
              end ++
    filter (fun seg => seg <> "") (split_on "."%char (pathname self)).
Proof.
  intros Hit. unfold logs_location. rewrite resolve_Path_join, Hit. f_equal.
  cbn [app]. rewrite filter_cons_True by discriminate. f_equal.
  rewrite filter_app. f_equal.
  destruct it; [|reflexivity]. now rewrite filter_cons_True, filter_nil.
Qed.

Lemma clean_location_dir (P : Path) (w w1 : World) :
  try_except (Path_mkdir P true false)
    (fun e =>
       match e with
       | FileExistsError =>
           Some (rmtree_ignore_errors P ;; Path_mkdir P true true)
       | _ => None
       end) w = (inr tt, w1) ->
  lookup_node (fs w1) (resolve w P) = Some Dir.
Proof.
  intros Hclean. unfold try_except, Path_mkdir in Hclean.
  destruct (Path_mkdir_go _ _ true false w) as [[e|[]] w2] eqn:Hfirst.
  - apply Path_mkdir_go_spec in Hfirst as ((Hs2 & _) & _).
    destruct e; try discriminate Hclean.
    unfold bind in Hclean.
    destruct (rmtree_frame P w2) as (w3 & Hrm & Hs3 & _).
    rewrite Hrm in Hclean. unfold Path_mkdir in Hclean.
    apply Path_mkdir_go_spec in Hclean as (_ & Hdir' & _).
    rewrite (resolve_same_process w2 w3), (resolve_same_process w w2) in Hdir'
      by assumption.
    now apply Hdir'.
  - injection Hclean as <-.
    apply Path_mkdir_go_spec in Hfirst as (_ & Hdir' & _). now apply Hdir'.
Qed.

Lemma logfile_paths_plain_dir (self : Object) (dir : Path) (b : bool)
    (D : list string) (perr : Path) :
  plain_location self dir ->
  logfile_paths self dir = inr (mkPath b (D ++ [logfile_name self "stdout"]), perr) ->
  mkPath b D = logs_location self dir.
Proof.
  intros Hplain Hpaths. rewrite (logfile_paths_plain self dir Hplain) in Hpaths.
  apply (f_equal (fun r : exn + Path * Path =>
                    match r with
                    | inr (p, _) => parent p
                    | inl _ => mkPath false []
                    end)) in Hpaths.
  cbv beta iota in Hpaths. rewrite !parent_snoc, path_eta in Hpaths. now symmetry.
Qed.

(** X9. The layout of the logs.  When [name_create_log] returns, both paths
    are absolute and lie in one directory, which exists, and the files are
    [stdout_rank<NNN>.txt] and [stderr_rank<NNN>.txt].  When every part of
    the location of the logs is a plain name, the directory is: next to the
    reports directory (resolved against the working directory), [logs], then
    [iter_<NNNN>] when [extract_iter] gives an iteration count and nothing
    otherwise, then the non-empty parts of the dotted path name of the
    component. *)
Theorem name_create_log_layout (self : Object) (iter0 : option Z) (w w1 : World)
    (out err : Path) :
  name_create_log self iter0 w = (inr (out, err), w1) ->
  exists pm dir it d,
    _problem_meta self = Some (Some pm) /\ reports_dir pm = Some dir /\
    extract_iter self = inr it /\
    out = mkPath true
            (d ++ ["stdout_rank" +:+ format_0d 3 (Z.of_nat (comm_rank self)) +:+ ".txt"]) /\
    err = mkPath true
            (d ++ ["stderr_rank" +:+ format_0d 3 (Z.of_nat (comm_rank self)) +:+ ".txt"]) /\
    lookup_node (fs w1) d = Some Dir /\
    (plain_location self dir ->
     d = resolve w (parent dir) ++
         "logs" :: match it with
                   | Some i => ["iter_" +:+ format_0d 4 i]
                   | None => []
                   end ++
         filter (fun seg => seg <> "") (split_on "."%char (pathname self))).
Proof.
  intros Hrun.
  destruct (name_create_log_inv _ _ _ _ _ Hrun)
    as [(pm & dir & Hcomp & Hpm & Hdir)|(_ & (e & He) & _)]; [|discriminate He].
  destruct (extract_iter_returns self) as [it Hit]; [congruence|].
  rewrite (name_create_log_unfold self iter0 w pm dir Hcomp Hpm Hdir) in Hrun.
  destruct (logfile_paths self dir) as [e|[pout perr]] eqn:Hpaths;
    [discriminate Hrun|].
  destruct (logfile_paths_returns _ _ _ _ Hpaths) as (b & D & -> & -> & _).
  rewrite parent_snoc in Hrun.
  destruct (try_except _ _ w) as [[e|[]] w0] eqn:Hclean; [discriminate Hrun|].
  pose proof (f_equal fst Hrun) as Hr. pose proof (f_equal snd Hrun) as Hw.
  cbn [fst snd] in Hr, Hw. subst w1.
  pose proof Hclean as Hframe. apply clean_location_frame in Hframe as (Hsame & _).
  rewrite !resolve_snoc, (resolve_same_process w w0) in Hr by assumption.
  exists pm, dir, it, (resolve w (mkPath b D)).
  split; [exact Hpm|]. split; [exact Hdir|]. split; [exact Hit|].
  injection Hr as <- <-. split; [reflexivity|]. split; [reflexivity|].
  split; [exact (clean_location_dir _ _ _ Hclean)|].
  intros Hplain. rewrite (logfile_paths_plain_dir _ _ _ _ _ Hplain Hpaths).
  now apply resolve_logs_location.
Qed.

Lemma name_create_log_cleaned (self : Object) (iter0 : option Z)
    (w w1 : World) (r : exn + Path * Path) :
  name_create_log self iter0 w = (r, w1) ->
  w1 = w \/
  exists pm dir b D perr,
    _problem_meta self = Some (Some pm) /\ reports_dir pm = Some dir /\
    logfile_paths self dir
    = inr (mkPath b (D ++ [logfile_name self "stdout"]), perr) /\
    location_cleaned (resolve w (mkPath b D)) w w1.
Proof.
  intros Hrun.
  destruct (name_create_log_inv _ _ _ _ _ Hrun)
    as [(pm & dir & Hcomp & Hpm & Hdir)|(-> & _)]; [|now left].
  rewrite (name_create_log_unfold self iter0 w pm dir Hcomp Hpm Hdir) in Hrun.
  destruct (logfile_paths self dir) as [e|[pout perr]] eqn:Hpaths;
    [left; congruence|].
  destruct (logfile_paths_returns _ _ _ _ Hpaths) as (b & D & -> & -> & _).
  rewrite parent_snoc in Hrun. right. exists pm, dir, b, D. eexists.
  split; [exact Hpm|]. split; [exact Hdir|]. split; [exact Hpaths|].
  destruct (try_except _ _ w) as [[e|[]] w0] eqn:Hclean;
    pose proof (f_equal snd Hrun) as Hw; cbn [snd] in Hw; subst w1;
    now apply clean_location_frame in Hclean.
Qed.

Lemma name_create_log_wf (self : Object) (iter0 : option Z)
    (w w1 : World) (r : exn + Path * Path) :
  name_create_log self iter0 w = (r, w1) -> fs_wf (fs w) -> fs_wf (fs w1).
Proof.
  intros Hrun Hwf.
  destruct (name_create_log_cleaned _ _ _ _ _ Hrun)
    as [->|(pm & dir & b & D & perr & _ & _ & _ & (_ & _ & _ & Hwf1))]; auto.
Qed.

(** X10. [name_create_log] keeps to its directory.  For a component whose
    location of the logs has plain names for all its parts: whatever the
    call returns or raises, outside the log directory of the component every
    entry of the file system is as it was, except that missing directories
    above the log directory may have been made; below the log directory
    entries are removed or kept, never made or changed; the working
    directory and the two streams are untouched; and a well-formed file
    system stays well-formed. *)
Theorem name_create_log_keeps_to_its_directory (self : Object) (iter0 : option Z)
    (w w1 : World) (r : exn + Path * Path) (pm : ProblemMeta) (dir : Path) :
  _problem_meta self = Some (Some pm) -> reports_dir pm = Some dir ->
  plain_location self dir ->
  name_create_log self iter0 w = (r, w1) ->
  let d := resolve w (logs_location self dir) in
  same_process w w1 /\
  (forall q, ~ d `prefix_of` q ->
     fs w1 !! q = fs w !! q \/
     (fs w !! q = None /\ fs w1 !! q = Some Dir /\ q `prefix_of` d)) /\
  (forall q, d `prefix_of` q -> q <> d ->
     fs w1 !! q = fs w !! q \/ fs w1 !! q = None) /\
  (fs_wf (fs w) -> fs_wf (fs w1)).
Proof.
  intros Hpm Hdir Hplain Hrun d.
  assert (Hcleaned : location_cleaned d w w1).
  { destruct (name_create_log_cleaned _ _ _ _ _ Hrun)
      as [->|(pm' & dir' & b & D & perr & Hpm' & Hdir' & Hpaths & Hc)].
    - apply grows_location_cleaned, extends_refl.
    - assert (pm' = pm) by congruence. subst pm'.
      assert (dir' = dir) by congruence. subst dir'.
      rewrite (logfile_paths_plain_dir _ _ _ _ _ Hplain Hpaths) in Hc. exact Hc. }
  destruct Hcleaned as (Hsame & Houtside & Hbelow & Hwf). auto.
Qed.

(** *** One directory for all the ranks and calls of a component *)

Lemma snoc_ne (d : list string) (a : string) : d ++ [a] <> d.
Proof.
  intros E. apply (f_equal length) in E. rewrite length_app in E. simpl in E. lia.
Qed.

Lemma not_snoc_prefix (d p : list string) (a : string) :
  p `prefix_of` d -> p <> d ++ [a].
Proof.
  intros Hp ->. apply prefix_length in Hp. rewrite length_app in Hp. simpl in Hp. lia.
Qed.

Lemma redirected_wf (d : list string) (no ne : string) (w1 : World) :
  fs_wf (fs w1) -> fresh_dir (fs w1) d -> no <> ne ->
  fs_wf (fs (redirected (mkPath true (d ++ [no])) (mkPath true (d ++ [ne])) w1)).
Proof.
  intros Hwf [Hdir Hbelow] Hnames. unfold redirected. cbn [fs parts].
  assert (Hnil : forall a : string, d ++ [a] <> []) by (intros a; destruct d; discriminate).
  assert (Hno : lookup_node (fs w1) (d ++ [no]) = None).
  { rewrite lookup_node_cons by apply Hnil.
    apply Hbelow; [now apply prefix_app_r|apply snoc_ne]. }
  assert (Hne : lookup_node (fs w1) (d ++ [ne]) = None).
  { rewrite lookup_node_cons by apply Hnil.
    apply Hbelow; [now apply prefix_app_r|apply snoc_ne]. }
  apply fs_wf_insert_file.
  - apply fs_wf_insert_file; [assumption..|now rewrite removelast_last].
  - rewrite lookup_node_insert_ne; [assumption|].
    intros E. apply app_inv_head in E. congruence.
  - rewrite removelast_last, lookup_node_insert_ne; [assumption|].
    apply not_eq_sym, snoc_ne.
Qed.

Lemma redirected_no_file (d : list string) (no ne : string) (w1 : World) :
  fs_wf (fs w1) -> fresh_dir (fs w1) d ->
  no_file_on_path
    (fs (redirected (mkPath true (d ++ [no])) (mkPath true (d ++ [ne])) w1)) d.
Proof.
  intros Hwf [Hdir _] p c Hp. unfold redirected. cbn [fs parts].
  rewrite !lookup_node_insert_ne by now apply not_snoc_prefix.
  destruct (decide (p = d)) as [->|Hne]; [congruence|].
  destruct (decide (d = [])) as [->|Hd].
  { apply prefix_nil_inv in Hp. congruence. }
  rewrite lookup_node_cons in Hdir by assumption.
  rewrite (Hwf _ _ _ Hdir Hp Hne). discriminate.
Qed.

(** X11. The log directory of a component is shared by its ranks and
    emptied by every call.  When [name_create_log] has returned two log
    files and they have been created, the next call for the same component
    path and problem, from whichever rank, returns paths in the same
    directory and removes both files. *)
Theorem next_call_removes_the_logs (self self' : Object) (w w1 : World)
    (out err : Path) :
  fs_wf (fs w) ->
  name_create_log self None w = (inr (out, err), w1) ->
  is_Component self' = true ->
  pathname self' = pathname self ->
  _problem_meta self' = _problem_meta self ->
  fs (redirected out err w1) !! parts out = Some (File "") /\
  fs (redirected out err w1) !! parts err = Some (File "") /\
  exists out' err' w3,
    name_create_log self' None (redirected out err w1) = (inr (out', err'), w3) /\
    log_dir out' = log_dir out /\ log_dir err' = log_dir out /\
    fs w3 !! parts out = None /\ fs w3 !! parts err = None.
Proof.
  intros Hwf Hfirst Hcomp' Hpath Hmeta.
  destruct (name_create_log_spec _ _ _ _ _ Hfirst Hwf) as (Hsame & Hpaths & _).
  destruct (Hpaths out err eq_refl)
    as (pm & dir & b & D & _ & Hpm & Hdir & Hlp & -> & -> & Hfresh).
  pose proof (name_create_log_wf _ _ _ _ _ Hfirst Hwf) as Hwf1.
  set (d := resolve w (mkPath b D)) in *.
  pose proof (logfile_names_differ self) as Hnames.
  set (w2 := redirected (mkPath true (d ++ [logfile_name self "stdout"]))
                        (mkPath true (d ++ [logfile_name self "stderr"])) w1).
  cbn [parts].
  split.
  { unfold w2, redirected. cbn [fs parts].
    rewrite lookup_insert_ne by (intros E; apply app_inv_head in E; congruence).
    apply lookup_insert_eq. }
  split; [unfold w2, redirected; cbn [fs parts]; apply lookup_insert_eq|].
  assert (Hlp' : logfile_paths self' dir
                 = inr (mkPath b (D ++ [logfile_name self' "stdout"]),
                        mkPath b (D ++ [logfile_name self' "stderr"]))).
  { destruct (logfile_paths_returns _ _ _ _ Hlp) as (b0 & D0 & Hb0 & _ & Hall).
    injection Hb0 as -> HD. apply app_inj_tail in HD as [-> _].
    exact (Hall self' Hpath Hmeta). }
  assert (Hpm' : _problem_meta self' = Some (Some pm)) by congruence.
  assert (Hres : resolve w2 (mkPath b D) = d).
  { unfold d, resolve. cbn [cwd w2 redirected].
    destruct Hsame as (-> & _). reflexivity. }
  destruct (name_create_log self' None w2) as [r w3] eqn:Hsecond.
  destruct (name_create_log_spec _ _ _ _ _ Hsecond
              (redirected_wf d _ _ w1 Hwf1 Hfresh Hnames))
    as (_ & Hpaths2 & Hsucceeds).
  destruct (Hsucceeds pm dir b D _ Hcomp' Hpm' Hdir Hlp') as (out' & err' & ->).
  { rewrite Hres. now apply redirected_no_file. }
  destruct (Hpaths2 out' err' eq_refl)
    as (pm2 & dir2 & b2 & D2 & _ & Hpm2 & Hdir2 & Hlp2 & -> & -> & [_ Hbelow]).
  assert (pm2 = pm) by congruence. subst pm2.
  assert (dir2 = dir) by congruence. subst dir2.
  rewrite Hlp' in Hlp2. injection Hlp2 as <- HD _.
  apply app_inj_tail in HD as [<- _].
  rewrite Hres in Hbelow |- *.
  exists (mkPath true (d ++ [logfile_name self' "stdout"])),
         (mkPath true (d ++ [logfile_name self' "stderr"])), w3.
  split; [reflexivity|]. unfold log_dir. cbn [parts]. rewrite !removelast_last.
  split; [reflexivity|]. split; [reflexivity|].
  split; apply Hbelow; try apply snoc_ne; now apply prefix_app_r.
Qed.

(** *** The wrapper and the files it opens *)

Lemma remove_first_head (k : list string) (l : list (list string)) :
  remove_first k (k :: l) = l.
Proof. cbn. now rewrite decide_True. Qed.

(** X12. The wrapper leaks no open file.  While the wrapped method runs,
    the two log files are open; when the method leaves the open files as it
    found them, then after the wrapper, whether the method returned or
    raised, the open files are those from before the call, and the file
    system is the one the method left. *)
Theorem log_files_are_closed {Args R : Type}
    (compute_func : Object -> Args -> M World R) (iter : option Z)
    (self : Object) (args : Args) (w w1 : World) (out err : Path) :
  fs_wf (fs w) ->
  name_create_log self None w = (inr (out, err), w1) ->
  open_files (snd (compute_func self args (redirected out err w1)))
    = open_files (redirected out err w1) ->
  parts out ∈ open_files (redirected out err w1) /\
  parts err ∈ open_files (redirected out err w1) /\
  open_files (snd (component_log_capture compute_func iter self args w))
    = open_files w /\
  fs (snd (component_log_capture compute_func iter self args w))
    = fs (snd (compute_func self args (redirected out err w1))).
Proof.
  intros Hwf Hn Hkept.
  destruct (name_create_log_spec _ _ _ _ _ Hn Hwf) as (Hsame & _).
  destruct (name_create_log_returns _ _ _ _ _ _ Hn Hwf) as (d & -> & -> & Hfresh).
  split; [unfold redirected; cbn [open_files parts]; set_solver|].
  split; [unfold redirected; cbn [open_files parts]; set_solver|].
  unfold component_log_capture, bind. rewrite Hn. cbn [fst snd].
  rewrite (capture_body_eval compute_func self args _ _ _ w1 Hfresh
             (logfile_names_differ self)).
  cbn [snd]. unfold restored. cbn [open_files fs]. rewrite Hkept.
  unfold redirected. cbn [open_files parts].
  rewrite !remove_first_head. destruct Hsame as (_ & _ & _ & ->). auto.
Qed.

(** *** Names that do not collide *)

Lemma string_length_app (s t : string) :
  String.length (s +:+ t) = String.length s + String.length t.
Proof.
  induction s as [|a s IH]; [reflexivity|].
  change (S (String.length (s +:+ t)) = S (String.length s + String.length t)).
  now f_equal.
Qed.

Lemma string_app_inj_r (t x y : string) : x +:+ t = y +:+ t -> x = y.
Proof.
  revert y. induction x as [|a x IH]; intros [|b y] E.
  - reflexivity.
  - apply (f_equal String.length) in E.
    rewrite !string_length_app in E. cbn in E. lia.
  - apply (f_equal String.length) in E.
    rewrite !string_length_app in E. cbn in E. lia.
  - cbn in E. injection E as -> E. f_equal. now apply IH.
Qed.

Lemma pretty_N_char_leading (x : N) :
  (0 < x < 10)%N ->
  pretty_N_char x <> "0"%char /\ pretty_N_char x <> "-"%char.
Proof.
  intros Hx.
  assert (x = 1 \/ x = 2 \/ x = 3 \/ x = 4 \/ x = 5 \/ x = 6
          \/ x = 7 \/ x = 8 \/ x = 9)%N as Hcases by lia.
  destruct Hcases as [->|[->|[->|[->|[->|[->|[->|[->| ->]]]]]]]];
    split; discriminate.
Qed.

Lemma pretty_N_go_leading (x : N) (s : string) :
  (0 < x)%N ->
  exists c t, pretty_N_go x s = String c t /\ c <> "0"%char /\ c <> "-"%char.
Proof.
  revert s. induction (N.lt_wf_0 x) as [x _ IH]. intros s Hx.
  rewrite pretty_N_go_step by assumption.
  destruct (decide (x < 10)%N) as [Hsmall|Hbig].
  - rewrite N.div_small, pretty_N_go_0 by assumption.
    rewrite N.mod_small by assumption.
    eexists _, _. split; [reflexivity|]. apply pretty_N_char_leading. lia.
  - apply IH.
    + apply N.div_lt; lia.
    + apply N.div_str_pos. lia.
Qed.

Lemma pretty_abs_shape (z : Z) : digits_shape (pretty (Z.abs z)).
Proof.
  assert (Hpos : forall p : positive, digits_shape (pretty (Z.pos p))).
  { intros p. right. unfold pretty, pretty_Z, pretty, pretty_positive, pretty, pretty_N.
    rewrite decide_False by discriminate. apply pretty_N_go_leading. lia. }
  destruct z as [|p|p]; cbn [Z.abs]; [now left|apply Hpos..].
Qed.

Lemma digits_shape_not_empty (d : string) : digits_shape d -> d <> "".
Proof. intros [->|(c & t & -> & _)]; discriminate. Qed.

Lemma zero_fill_cancel (a b : nat) (d1 d2 : string) :
  digits_shape d1 -> digits_shape d2 ->
  zero_fill a +:+ d1 = zero_fill b +:+ d2 -> d1 = d2.
Proof.
  intros H1 H2. revert b.
  assert (Hclash : forall n d d', digits_shape d -> digits_shape d' ->
            d = zero_fill (S n) +:+ d' -> False).
  { intros n d d' Hd Hd' E. cbn in E.
    destruct Hd as [->|(c & t & -> & Hc & _)].
    - injection E as E. symmetry in E.
      apply (f_equal String.length) in E. rewrite string_length_app in E.
      apply digits_shape_not_empty in Hd'. destruct d'; [congruence|].
      cbn in E. lia.
    - injection E as -> _. congruence. }
  induction a as [|a IH]; intros [|b] E.
  - exact E.
  - exfalso. exact (Hclash _ _ _ H1 H2 E).
  - exfalso. symmetry in E. exact (Hclash _ _ _ H2 H1 E).
  - cbn in E. injection E as E. exact (IH b E).
Qed.

Lemma zero_fill_not_dash (a : nat) (d x : string) :
  digits_shape d -> zero_fill a +:+ d <> "-" +:+ x.
Proof.
  intros Hd E. destruct a as [|a]; cbn in E.
  - destruct Hd as [->|(c & t & -> & _ & Hc)]; [discriminate E|].
    injection E as -> _. congruence.
  - discriminate E.
Qed.

Lemma format_0d_inj (width : nat) (a b : Z) :
  format_0d width a = format_0d width b -> a = b.
Proof.
  unfold format_0d. intros E.
  pose proof (pretty_abs_shape a) as Ha. pose proof (pretty_abs_shape b) as Hb.
  destruct (Z.ltb_spec a 0) as [Na|Pa], (Z.ltb_spec b 0) as [Nb|Pb].
  - cbn in E. injection E as E. apply zero_fill_cancel in E; [|assumption..].
    apply (inj pretty) in E. lia.
  - symmetry in E. now apply zero_fill_not_dash in E.
  - now apply zero_fill_not_dash in E.
  - apply zero_fill_cancel in E; [|assumption..].
    apply (inj pretty) in E. lia.
Qed.

(** X13. Logs of different iterations and of different ranks do not
    collide.  The zero-padded formats of the iteration count and of the rank
    are injective, so for one component path and reports directory two
    different iteration counts give two different log directories, and in
    one directory two different ranks give two different files for each
    stream. *)
Theorem iterations_and_ranks_do_not_collide (a b : Object) (dir : Path) (w : World) :
  (forall width x y, format_0d width x = format_0d width y -> x = y) /\
  (forall i j, pathname a = pathname b ->
     extract_iter a = inr (Some i) -> extract_iter b = inr (Some j) -> i <> j ->
     resolve w (logs_location a dir) <> resolve w (logs_location b dir)) /\
  (forall s, comm_rank a <> comm_rank b -> logfile_name a s <> logfile_name b s).
Proof.
  split; [exact format_0d_inj|]. split.
  - intros i j Hpath Ha Hb Hij E.
    rewrite (resolve_logs_location a dir w _ Ha),
            (resolve_logs_location b dir w _ Hb) in E.
    apply app_inv_head in E. injection E as E.
    change (format_0d 4 i = format_0d 4 j) in E. apply format_0d_inj in E. congruence.
  - intros s Hrank E. unfold logfile_name in E.
    apply (inj (String.append s)) in E. apply (inj (String.append "_rank")) in E.
    apply string_app_inj_r, format_0d_inj in E. lia.
Qed.

End LoggingMore.

(** ** The further facts at the concrete instances *)

Module MoreExamples.

Import EagleDensity Logging Examples EagleDensityFacts EagleDensityExamples.
Import LoggingFacts LoggingExamples EagleDensityMore LoggingMore.

#[local] Open Scope list_scope.
#[local] Open Scope Z_scope.

Lemma compute_on_component4 (outputs : gmap string (list (list (list Z))))
    (xs ys : list Z) :
  compute (query_batch xs ys) outputs component4
  = (inr (<["eagle_normalized_density" :=
             zip_with (fun xt yt => [[xt + yt]]) xs ys]> outputs), component4).
Proof.
  apply (compute_eval component4 spline4);
    [apply component4_spline|apply query_batch_x|apply query_batch_y].
Qed.

Lemma compute_partials_on_component4 (xs ys : list Z) :
  length xs = length ys ->
  compute_partials (query_batch xs ys) ∅ component4
  = (inr (<[("eagle_normalized_density", "y_turbines") :=
             diag (zip_with (fun _ _ => 1) xs ys)]>
           (<[("eagle_normalized_density", "x_turbines") :=
               diag (zip_with (fun _ _ => 1) xs ys)]> ∅)), component4).
Proof.
  intros E.
  apply (compute_partials_eval component4 spline4);
    [apply component4_spline|cbn; lia|cbn; lia
    |apply query_batch_x|apply query_batch_y|exact E].
Qed.

(** Another entry of [outputs] survives the call. *)
Lemma compute_writes_only_the_density_witness :
  let outputs : gmap string (list (list (list Z))) := <["other" := [[[9]]]]> ∅ in
  let out := <["eagle_normalized_density" := [[[1]]; [[5]]]]> outputs in
  is_Some (out !! "eagle_normalized_density") /\
  (forall k, k <> "eagle_normalized_density" -> out !! k = outputs !! k) /\
  compute (query_batch [0; 2] [1; 3])
    (<["eagle_normalized_density" := [[[7]]]]> outputs) component4
  = (inr out, component4).
Proof.
  cbv zeta.
  exact (compute_writes_only_the_density component4 component4
           (query_batch [0; 2] [1; 3]) _ _ [[[7]]]
           (compute_on_component4 _ [0; 2] [1; 3])).
Defined.

Lemma compute_partials_writes_two_keys_witness :
  exists p,
    compute_partials (query_batch [0; 2] [1; 3]) ∅ component4 = (inr p, component4) /\
    is_Some (p !! ("eagle_normalized_density", "x_turbines")) /\
    is_Some (p !! ("eagle_normalized_density", "y_turbines")) /\
    (forall key, key <> ("eagle_normalized_density", "x_turbines") ->
                 key <> ("eagle_normalized_density", "y_turbines") ->
                 p !! key = (∅ : gmap (string * string) (list (list Z))) !! key).
Proof.
  eexists. split; [exact (compute_partials_on_component4 [0; 2] [1; 3] eq_refl)|].
  exact (compute_partials_writes_two_keys component4 component4 _ _ _
           (compute_partials_on_component4 [0; 2] [1; 3] eq_refl)).
Defined.

(** An empty x-array on a component that was never set up. *)
Lemma empty_batch_witness :
  compute (query_batch [] [1; 2]) ∅ (new_component options4)
  = (inr (<["eagle_normalized_density" := []]> ∅), new_component options4).
Proof.
  apply (empty_batch (new_component options4) (query_batch [] [1; 2]) ∅ ∅ [] [1; 2]
           (query_batch_x _ _) (query_batch_y _ _)).
  now left.
Defined.

(** Three x-coordinates against two y-coordinates. *)
Lemma compute_partials_accepts_broadcastable_witness :
  compute_partials (query_batch [0; 1; 2] [0; 1]) ∅ component4
  = (inl (ValueError "shape mismatch: objects cannot be broadcast to a single shape"),
     component4).
Proof.
  apply (compute_partials_accepts_broadcastable (new_component options4) component4
           (query_batch [0; 1; 2] [0; 1]) ∅ [0; 1; 2] [0; 1]
           setup_options4 (query_batch_x _ _) (query_batch_y _ _));
    cbn; lia.
Defined.

Lemma partials_written_are_those_declared_witness :
  exists p,
    compute_partials (query_batch [0; 2] [1; 3]) ∅ component4 = (inr p, component4) /\
    forall of_ wrt,
      is_Some (p !! (of_, wrt)) <->
      (of_, wrt, "exact")
        ∈ declared_partials (snd (setup_partials (new_component options4))).
Proof.
  eexists. split; [exact (compute_partials_on_component4 [0; 2] [1; 3] eq_refl)|].
  exact (partials_written_are_those_declared (new_component options4)
           component4 component4 _ _ eq_refl
           (compute_partials_on_component4 [0; 2] [1; 3] eq_refl)).
Defined.

(** The component of the problem at iteration 7, rank 2, over stale logs. *)
Lemma world_stale_run :
  name_create_log component_logged None world_stale
  = (inr (mkPath true (stale_log_dir ++ ["stdout_rank002.txt"]),
          mkPath true (stale_log_dir ++ ["stderr_rank002.txt"])),
     snd (name_create_log component_logged None world_stale)).
Proof.
  apply injective_projections; cbn [fst snd]; [|reflexivity].
  vm_compute. reflexivity.
Qed.

Lemma name_create_log_layout_witness :
  lookup_node (fs (snd (name_create_log component_logged None world_stale)))
    stale_log_dir = Some Dir.
Proof.
  destruct (name_create_log_layout component_logged None world_stale _ _ _
              world_stale_run)
    as (pm & dir & it & d & Hpm & Hdir & Hit & _ & _ & Hd & Hplain).
  injection Hpm as <-. injection Hdir as <-. injection Hit as <-.
  rewrite (Hplain component_logged_plain) in Hd. exact Hd.
Defined.

Lemma name_create_log_keeps_to_its_directory_witness :
  location_cleaned stale_log_dir world_stale
    (snd (name_create_log component_logged None world_stale)).
Proof.
  rewrite <- world_stale_log_location.
  exact (name_create_log_keeps_to_its_directory component_logged None world_stale
           _ _ _ (mkPath false ["out"; "reports"]) eq_refl eq_refl
           component_logged_plain world_stale_run).
Defined.

(** Rank 3 removes the log files of rank 2. *)
Lemma next_call_removes_the_logs_witness :
  exists out' err' w3,
    name_create_log component_logged_rank3 None
      (redirected (mkPath true (stale_log_dir ++ ["stdout_rank002.txt"]))
                  (mkPath true (stale_log_dir ++ ["stderr_rank002.txt"]))
                  (snd (name_create_log component_logged None world_stale)))
    = (inr (out', err'), w3) /\
    fs w3 !! (stale_log_dir ++ ["stdout_rank002.txt"]) = None /\
    fs w3 !! (stale_log_dir ++ ["stderr_rank002.txt"]) = None.
Proof.
  destruct (next_call_removes_the_logs component_logged component_logged_rank3
              world_stale _ _ _ world_stale_wf world_stale_run
              eq_refl eq_refl eq_refl)
    as (_ & _ & out' & err' & w3 & Hrun & _ & _ & Hout & Herr).
  exists out', err', w3. auto.
Defined.

Lemma log_files_are_closed_witness :
  open_files (snd (component_log_capture failing_func None component_logged tt
                     world_stale)) = [].
Proof.
  destruct (log_files_are_closed failing_func None component_logged tt world_stale
              _ _ _ world_stale_wf world_stale_run eq_refl)
    as (_ & _ & Hopen & _).
  exact Hopen.
Defined.

End MoreExamples.
